(** * ngx-reactive-forms-generator: the decorator registry of [index.ts]

    The library keeps one process-wide object, [METADATA], that maps a
    model class to its named form groups.  Decorators mutate that object
    while classes are being defined; [toFormGroup] and [toFormGroups]
    read it afterwards.

    The development embeds [index.ts] function by function.  Form groups
    are JavaScript objects that are shared by reference (a group nested
    into another one is the same object), so they live in a heap of
    cells addressed by references; [METADATA] stores references.
    Reading a member of [undefined] raises a [TypeError] in JavaScript:
    every function of the file is written in a small state monad whose
    computations either complete normally or throw, and in both cases
    hand back the state reached so far. *)

From stdpp Require Import gmap strings list fin_maps.

Local Open Scope string_scope.

(** ** The part of [@angular/forms] that [index.ts] calls *)

Module Forms.

(** Validator functions are compared by identity ([hasValidator],
    [addValidators]).  A function written by the user is named by an
    identifier; [Composed fs] is the function that the library builds
    from an array of validators. *)
#[warnings="-register-all"]
Inductive fn : Type :=
| Fn (id : string)
| Composed (parts : list fn).

Fixpoint fn_eq_dec (a b : fn) {struct a} : {a = b} + {a <> b}.
Proof.
  decide equality.
  - apply String.string_dec.
  - apply (List.list_eq_dec fn_eq_dec).
Defined.

#[global] Instance fn_eq_decision : EqDecision fn := fn_eq_dec.

(** [ValidatorFn | ValidatorFn[] | null], the shape in which a control
    keeps its validators ([_rawValidators], [_rawAsyncValidators]). *)
Inductive raw : Type :=
| RNull
| ROne (f : fn)
| RMany (fs : list fn).

#[global] Instance raw_eq_decision : EqDecision raw.
Proof. solve_decision. Defined.

Definition makeValidatorsArray (v : raw) : list fn :=
  match v with
  | RNull => []
  | ROne f => [f]
  | RMany fs => fs
  end.

Definition hasValidator (current : raw) (v : fn) : bool :=
  match current with
  | RNull => false
  | ROne f => bool_decide (f = v)
  | RMany fs => bool_decide (v ∈ fs)
  end.

(** [addValidators(validators, currentValidators)]: every validator
    that is not yet in the current array is pushed at its end. *)
Definition addValidators (validators current : raw) : list fn :=
  foldl (fun cur v => if bool_decide (v ∈ cur) then cur else (cur ++ [v])%list)
        (makeValidatorsArray current) (makeValidatorsArray validators).

(** The getters [validator] and [asyncValidator] answer the composed
    function: a single function is kept as it is, an array with at
    least one function is composed, anything else is [null]. *)
Definition coerceToValidator (v : raw) : option fn :=
  match v with
  | RNull => None
  | ROne f => Some f
  | RMany [] => None
  | RMany fs => Some (Composed fs)
  end.

(** A value of [null | fn] handed back to a constructor. *)
Definition of_getter (o : option fn) : raw :=
  match o with
  | None => RNull
  | Some f => ROne f
  end.

Record FormControlOptions : Type := mkOptions {
  opt_validators : raw;
  opt_asyncValidators : raw;
  opt_nonNullable : bool
}.

(** [ValidatorFn | ValidatorFn[] | FormControlOptions | null]. *)
Inductive ValidatorsOrOptions : Type :=
| Plain (v : raw)
| Options (o : FormControlOptions).

Definition pickValidators (validatorOrOpts : ValidatorsOrOptions) : raw :=
  match validatorOrOpts with
  | Plain v => v
  | Options o => opt_validators o
  end.

(** With an options object the third constructor argument is dropped
    and the options' own asynchronous validators are used. *)
Definition pickAsyncValidators (asyncValidator : raw)
           (validatorOrOpts : ValidatorsOrOptions) : raw :=
  match validatorOrOpts with
  | Plain _ => asyncValidator
  | Options o => opt_asyncValidators o
  end.

(** References to heap cells are indices into the heap. *)
Abbreviation ref := nat (only parsing).

(** Values held by controls.  [JAggregate r] is the value object that
    the forms library keeps for the group in cell [r]; its content is
    computed by the library from the children of the group. *)
Inductive js_value : Type :=
| JUndefined
| JNull
| JBool (b : bool)
| JNum (n : Z)
| JStr (s : string)
| JAggregate (r : ref).

Record FormControl : Type := mkControl {
  value : js_value;
  rawValidators : raw;
  rawAsyncValidators : raw
}.

(** [new FormControl(formState, validatorOrOpts, asyncValidator)]. *)
Definition new_FormControl (formState : js_value)
           (validatorOrOpts : ValidatorsOrOptions) (asyncValidator : raw)
  : FormControl :=
  {| value := formState;
     rawValidators := pickValidators validatorOrOpts;
     rawAsyncValidators := pickAsyncValidators asyncValidator validatorOrOpts |}.

(** A child of a group is a control of its own or another group, held
    by reference. *)
Inductive AbstractControl : Type :=
| Leaf (c : FormControl)
| Nested (r : ref).

Record FormGroup : Type := mkGroup {
  controls : gmap string AbstractControl;
  g_rawValidators : raw;
  g_rawAsyncValidators : raw
}.

(** [new FormGroup({})]. *)
Definition empty_FormGroup : FormGroup :=
  {| controls := ∅; g_rawValidators := RNull; g_rawAsyncValidators := RNull |}.

(** [registerControl]: a name that is already taken keeps its control. *)
Definition group_addControl (name : string) (c : AbstractControl)
           (g : FormGroup) : FormGroup :=
  match controls g !! name with
  | Some _ => g
  | None => {| controls := <[name := c]> (controls g);
               g_rawValidators := g_rawValidators g;
               g_rawAsyncValidators := g_rawAsyncValidators g |}
  end.

Definition group_removeControl (name : string) (g : FormGroup) : FormGroup :=
  {| controls := delete name (controls g);
     g_rawValidators := g_rawValidators g;
     g_rawAsyncValidators := g_rawAsyncValidators g |}.

Definition group_addValidators (validators : raw) (g : FormGroup) : FormGroup :=
  {| controls := controls g;
     g_rawValidators := RMany (addValidators validators (g_rawValidators g));
     g_rawAsyncValidators := g_rawAsyncValidators g |}.

Definition group_addAsyncValidators (validators : raw) (g : FormGroup) : FormGroup :=
  {| controls := controls g;
     g_rawValidators := g_rawValidators g;
     g_rawAsyncValidators :=
       RMany (addValidators validators (g_rawAsyncValidators g)) |}.

Definition control_addAsyncValidators (validators : raw) (c : FormControl)
  : FormControl :=
  {| value := value c;
     rawValidators := rawValidators c;
     rawAsyncValidators :=
       RMany (addValidators validators (rawAsyncValidators c)) |}.

Definition group_setControl (name : string) (c : AbstractControl)
           (g : FormGroup) : FormGroup :=
  {| controls := <[name := c]> (controls g);
     g_rawValidators := g_rawValidators g;
     g_rawAsyncValidators := g_rawAsyncValidators g |}.

End Forms.

Export Forms.

(** ** Model classes and form identifiers *)

(** A decorated class, as far as [index.ts] looks at it: [type.name],
    the property key under which [METADATA[type]] files it (the string
    conversion of the class), and the own properties of [new type()] in
    enumeration order. *)
Record ModelType : Type := mkType {
  name : string;
  key : string;
  instance : list (string * js_value)
}.

(** [o[p]] on a freshly built instance; a missing property reads as
    [undefined]. *)
Fixpoint member (o : list (string * js_value)) (p : string) : js_value :=
  match o with
  | [] => JUndefined
  | (k, v) :: o' => if bool_decide (k = p) then v else member o' p
  end.

(** [type FormIdType = string | string[] | undefined]. *)
Inductive FormIdType : Type :=
| FUndefined
| FString (s : string)
| FArray (l : list string).

Definition DEFAULT_GROUP : string :=
  "!A!N!S!R!!!THIS_IS_THE_DEFAULT_GROUP_ID!!A!N!S!R!".

(** Truthiness of a string: only the empty string is falsy. *)
Definition truthy (s : string) : bool := negb (bool_decide (s = EmptyString)).

(** [normalizeFormId]: [!!formId] is false for [undefined] and for the
    empty string and true for every array, the empty one included. *)
Definition normalizeFormId (type : ModelType) (formId : FormIdType) : list string :=
  let forms :=
    match formId with
    | FUndefined => [name type]
    | FString s => if truthy s then [s] else [name type]
    | FArray l => l
    end in
  (fun f => if bool_decide (f = DEFAULT_GROUP) then name type else f) <$> forms.

(** Where a field decorator stands: on a property, or on the constructor
    parameter of the given index. *)
Inductive site : Type :=
| OnProperty (propName : string)
| OnParameter (descriptor : nat).

(** [if (descriptor != undefined) propName = Object.keys(new target())[descriptor]];
    an index past the last key leaves the name [undefined]. *)
Definition propName_of (type : ModelType) (s : site) : option string :=
  match s with
  | OnProperty p => Some p
  | OnParameter i => fst <$> (instance type !! i)
  end.

(** A property key made from a name that may be [undefined]. *)
Definition property_key (propName : option string) : string :=
  default "undefined" propName.

(** ** The registry and its heap *)

(** [METADATA] and the objects filed in it are used as maps from names
    to values; they are modelled as finite maps of their own
    properties (what a plain object inherits from [Object.prototype] is
    left out).  The heap holds the group objects; a reference is the
    index of a cell. *)
Record state : Type := mkState {
  METADATA : gmap string (gmap string ref);
  heap : list FormGroup
}.

Definition initial : state := {| METADATA := ∅; heap := [] |}.

Inductive exn : Type := TypeError.

Inductive completion (A : Type) : Type :=
| Normal (a : A)
| Throw (e : exn).

Arguments Normal {A} a.
Arguments Throw {A} e.

Definition JS (A : Type) : Type := state -> completion A * state.

Definition ret {A} (a : A) : JS A := fun σ => (Normal a, σ).

Definition throw {A} (e : exn) : JS A := fun σ => (Throw e, σ).

Definition bind {A B} (c : JS A) (k : A -> JS B) : JS B :=
  fun σ =>
    match c σ with
    | (Normal a, σ') => k a σ'
    | (Throw e, σ') => (Throw e, σ')
    end.

Declare Scope js_scope.
Delimit Scope js_scope with js.
Bind Scope js_scope with JS.

Notation "x <- c ;; k" := (bind c (fun x => k))
  (at level 100, c at next level, k at level 200, right associativity) : js_scope.
Notation "c ;; k" := (bind c (fun _ => k))
  (at level 100, k at level 200, right associativity) : js_scope.

Local Open Scope js_scope.

(** [Array.prototype.forEach] and [Array.prototype.map] with a callback
    that may throw: the callback is not run on an empty array. *)
Fixpoint forEach {A} (l : list A) (f : A -> JS unit) : JS unit :=
  match l with
  | [] => ret tt
  | a :: l' => f a ;; forEach l' f
  end.

Fixpoint mapM {A B} (l : list A) (f : A -> JS B) : JS (list B) :=
  match l with
  | [] => ret []
  | a :: l' => b <- f a ;; bs <- mapM l' f ;; ret (b :: bs)
  end.

(** [METADATA[target][f]] as an expression: reading a member of
    [undefined] throws. *)
Definition readEntry (target : ModelType) (f : string) : JS (option ref) :=
  fun σ =>
    match METADATA σ !! key target with
    | Some m => (Normal (m !! f), σ)
    | None => (Throw TypeError, σ)
    end.

(** [METADATA[target][f] = r]. *)
Definition writeEntry (target : ModelType) (f : string) (r : ref) : JS unit :=
  fun σ =>
    match METADATA σ !! key target with
    | Some m => (Normal tt,
                 {| METADATA := <[key target := <[f := r]> m]> (METADATA σ);
                    heap := heap σ |})
    | None => (Throw TypeError, σ)
    end.

(** [if (!METADATA[target]) METADATA[target] = {}]. *)
Definition ensureType (target : ModelType) : JS unit :=
  fun σ =>
    match METADATA σ !! key target with
    | Some _ => (Normal tt, σ)
    | None => (Normal tt,
               {| METADATA := <[key target := ∅]> (METADATA σ); heap := heap σ |})
    end.

(** [new FormGroup({})]: a fresh cell at the end of the heap. *)
Definition new_FormGroup : JS ref :=
  fun σ =>
    (Normal (length (heap σ)),
     {| METADATA := METADATA σ; heap := (heap σ ++ [empty_FormGroup])%list |}).

(** The receiver of a method call; calling a method of [undefined]
    throws. *)
Definition receiver (o : option ref) : JS ref :=
  match o with
  | Some r => ret r
  | None => throw TypeError
  end.

(** Reading and updating the object behind a reference.  References are
    only made by [new_FormGroup], so the missing-cell cases below are
    never taken from a well-formed state. *)
Definition deref (r : ref) : JS FormGroup :=
  fun σ =>
    match heap σ !! r with
    | Some g => (Normal g, σ)
    | None => (Throw TypeError, σ)
    end.

Definition update (r : ref) (f : FormGroup -> FormGroup) : JS unit :=
  fun σ =>
    match heap σ !! r with
    | Some g => (Normal tt, {| METADATA := METADATA σ; heap := <[r := f g]> (heap σ) |})
    | None => (Throw TypeError, σ)
    end.

(** [formGroup.get(propName)]; [get(undefined)] is [null].  The name is
    taken as one path segment: the forms library splits the argument of
    [get] at dots, and the property names the decorators stand on hold
    none. *)
Definition get (r : ref) (propName : option string) : JS (option AbstractControl) :=
  g <- deref r ;;
  ret (match propName with
       | Some p => controls g !! p
       | None => None
       end).

Definition addControl (r : ref) (name : string) (c : AbstractControl) : JS unit :=
  update r (group_addControl name c).

Definition removeControl (r : ref) (name : string) : JS unit :=
  update r (group_removeControl name).

(** [ctrl.value] and [ctrl.asyncValidator] of a child. *)
Definition value_of (ctrl : AbstractControl) : js_value :=
  match ctrl with
  | Leaf c => value c
  | Nested r => JAggregate r
  end.

Definition asyncValidator_of (ctrl : AbstractControl) : JS (option fn) :=
  match ctrl with
  | Leaf c => ret (coerceToValidator (rawAsyncValidators c))
  | Nested r => g <- deref r ;; ret (coerceToValidator (g_rawAsyncValidators g))
  end.

(** ** The functions of [index.ts] *)

Definition initializeMetadata (target : ModelType) (formId : FormIdType) : JS unit :=
  ensureType target ;;
  forEach (normalizeFormId target formId) (fun f =>
    e <- readEntry target f ;;
    match e with
    | Some _ => ret tt
    | None => r <- new_FormGroup ;; writeEntry target f r
    end).

Definition getFormGroups (target : ModelType) (formId : FormIdType)
  : JS (list (option ref)) :=
  mapM (normalizeFormId target formId) (fun f => readEntry target f).

Definition FormGroupTarget (formId : FormIdType) (target : ModelType) : JS unit :=
  initializeMetadata target formId.

Definition FormGroupValidators (validators : raw) (formId : FormIdType)
           (target : ModelType) : JS unit :=
  initializeMetadata target formId ;;
  groups <- getFormGroups target formId ;;
  forEach groups (fun formGroup =>
    r <- receiver formGroup ;;
    update r (group_addValidators validators)).

Definition FormGroupAsyncValidators (validators : raw) (formId : FormIdType)
           (target : ModelType) : JS unit :=
  initializeMetadata target formId ;;
  groups <- getFormGroups target formId ;;
  forEach groups (fun formGroup =>
    r <- receiver formGroup ;;
    update r (group_addAsyncValidators validators)).

Definition FormControlTarget (validatorsOrOptions : ValidatorsOrOptions)
           (formId : FormIdType) (type : ModelType) (at_ : site) : JS unit :=
  let propName := propName_of type at_ in
  initializeMetadata type formId ;;
  groups <- getFormGroups type formId ;;
  forEach groups (fun formGroup =>
    r <- receiver formGroup ;;
    ctrl <- get r propName ;;
    match ctrl with
    | None =>
        addControl r (property_key propName)
          (Leaf (new_FormControl (member (instance type) (property_key propName))
                                 validatorsOrOptions RNull))
    | Some ctrl =>
        removeControl r (property_key propName) ;;
        a <- asyncValidator_of ctrl ;;
        addControl r (property_key propName)
          (Leaf (new_FormControl (value_of ctrl) validatorsOrOptions (of_getter a)))
    end).

Definition FormControlAsyncValidators (validators : raw) (formId : FormIdType)
           (type : ModelType) (at_ : site) : JS unit :=
  let propName := propName_of type at_ in
  initializeMetadata type formId ;;
  groups <- getFormGroups type formId ;;
  forEach groups (fun formGroup =>
    r <- receiver formGroup ;;
    ctrl <- get r propName ;;
    match ctrl with
    | None =>
        addControl r (property_key propName)
          (Leaf (new_FormControl (member (instance type) (property_key propName))
                                 (Plain RNull) validators))
    | Some (Leaf c) =>
        update r (group_setControl (property_key propName)
                    (Leaf (control_addAsyncValidators validators c)))
    | Some (Nested n) =>
        update n (group_addAsyncValidators validators)
    end).

(** [sourceFormId: string | undefined] handed on as a [FormIdType]. *)
Definition of_sourceFormId (sourceFormId : option string) : FormIdType :=
  match sourceFormId with
  | None => FUndefined
  | Some s => FString s
  end.

Definition NestedFormGroup (sourceType : ModelType) (sourceFormId : option string)
           (targetFormId : FormIdType) (type : ModelType) (at_ : site) : JS unit :=
  let propName := propName_of type at_ in
  initializeMetadata type targetFormId ;;
  groups <- getFormGroups type targetFormId ;;
  forEach groups (fun formGroup =>
    found <- getFormGroups sourceType (of_sourceFormId sourceFormId) ;;
    match mjoin (head found) with
    | Some nestedFormGroup =>
        r <- receiver formGroup ;;
        addControl r (property_key propName) (Nested nestedFormGroup)
    | None => ret tt
    end).

(** [toFormGroup(type, formId: string | null = null)]. *)
Definition toFormGroup (type : ModelType) (formId : option string) : JS (option ref) :=
  let f := match formId with
           | Some s => if truthy s then s else name type
           | None => name type
           end in
  readEntry type f.

(** What [toFormGroups] hands back: an array of entries, the object
    [METADATA[t]] itself, or [undefined]. *)
Inductive groups_result : Type :=
| RArray (l : list (option ref))
| RObject (m : gmap string ref)
| RUndefined.

Definition toFormGroups (t : ModelType) (formIds : list string) : JS groups_result :=
  match formIds with
  | _ :: _ => l <- mapM formIds (fun f => readEntry t f) ;; ret (RArray l)
  | [] => fun σ =>
      (Normal (match METADATA σ !! key t with
               | Some m => RObject m
               | None => RUndefined
               end), σ)
  end.

(** ** Reading the registry *)

(** The reference filed under [METADATA[K][k]], if any. *)
Definition tree_ref (σ : state) (K k : string) : option ref :=
  METADATA σ !! K ≫= fun m => m !! k.

(** The group object filed under [METADATA[K][k]], if any. *)
Definition tree_at (σ : state) (K k : string) : option FormGroup :=
  tree_ref σ K k ≫= fun r => heap σ !! r.

Definition registered (σ : state) (type : ModelType) : Prop :=
  is_Some (METADATA σ !! key type).

(** Well-formed states: every reference of the registry and every
    nested child points to a cell of the heap, and no two entries of
    the registry share a cell. *)
Record wf (σ : state) : Prop := mk_wf {
  wf_alloc : forall K k r, tree_ref σ K k = Some r -> r < length (heap σ);
  wf_inj : forall K k K' k' r,
      tree_ref σ K k = Some r -> tree_ref σ K' k' = Some r -> K = K' /\ k = k';
  wf_child : forall r g p n,
      heap σ !! r = Some g -> controls g !! p = Some (Nested n) ->
      n < length (heap σ)
}.

(** The state transformer behind one round of the loop of
    [initializeMetadata], and behind the whole function. *)
Definition ensure (K f : string) (σ : state) : state :=
  match METADATA σ !! K with
  | Some m =>
      match m !! f with
      | Some _ => σ
      | None => {| METADATA := <[K := <[f := length (heap σ)]> m]> (METADATA σ);
                   heap := (heap σ ++ [empty_FormGroup])%list |}
      end
  | None => σ
  end.

Definition ensureType_state (K : string) (σ : state) : state :=
  match METADATA σ !! K with
  | Some _ => σ
  | None => {| METADATA := <[K := ∅]> (METADATA σ); heap := heap σ |}
  end.

Definition init_state (target : ModelType) (formId : FormIdType) (σ : state) : state :=
  foldl (fun s f => ensure (key target) f s)
        (ensureType_state (key target) σ)
        (normalizeFormId target formId).

(** Replacing the object in cell [r]. *)
Definition set_cell (σ : state) (r : ref) (g : FormGroup) : state :=
  {| METADATA := METADATA σ; heap := <[r := g]> (heap σ) |}.

(** [ctrl.asyncValidator] read off a state. *)
Definition getter (σ : state) (ctrl : AbstractControl) : option fn :=
  match ctrl with
  | Leaf c => coerceToValidator (rawAsyncValidators c)
  | Nested n => heap σ !! n ≫= fun g => coerceToValidator (g_rawAsyncValidators g)
  end.

(** What the replacement control of field [p] starts from: the value and
    the asynchronous validator of the control that is there, or the
    field of a fresh instance and no validator. *)
Definition slot_value (type : ModelType) (p : string) (g : FormGroup) : js_value :=
  match controls g !! p with
  | Some c => value_of c
  | None => member (instance type) p
  end.

Definition slot_async (σ : state) (p : string) (g : FormGroup) : option fn :=
  controls g !! p ≫= getter σ.

(** The state a computation ends in, and its completion. *)
Definition exec {A} (c : JS A) (σ : state) : state := snd (c σ).
Definition result {A} (c : JS A) (σ : state) : completion A := fst (c σ).

(** [σ'] is [σ] with more entries and more cells: nothing that was
    filed moved, the old cells are untouched, and what is new is filed
    on new, empty groups. *)
Record extends (σ σ' : state) : Prop := mk_extends {
  ext_ref : forall K k r, tree_ref σ K k = Some r -> tree_ref σ' K k = Some r;
  ext_heap : exists n, heap σ' = (heap σ ++ replicate n empty_FormGroup)%list;
  ext_fresh : forall K k r,
      tree_ref σ' K k = Some r -> tree_ref σ K k = None -> length (heap σ) <= r;
  ext_reg : forall K, is_Some (METADATA σ !! K) -> is_Some (METADATA σ' !! K)
}.

(** The shape shared by the five decorators that loop over groups. *)
Definition decorate (target : ModelType) (formId : FormIdType)
           (each : option ref -> JS unit) : JS unit :=
  initializeMetadata target formId ;;
  groups <- getFormGroups target formId ;;
  forEach groups each.

(** The child filed under field [p] of the tree [METADATA[K][k]]. *)
Definition field_at (σ : state) (K k p : string) : option AbstractControl :=
  tree_at σ K k ≫= fun g => controls g !! p.

(** What one round of [FormControlTarget] makes of a group. *)
Definition retarget (type : ModelType) (p : string)
           (validatorsOrOptions : ValidatorsOrOptions)
           (σ : state) (g : FormGroup) : FormGroup :=
  group_setControl p
    (Leaf (new_FormControl (slot_value type p g) validatorsOrOptions
                           (of_getter (slot_async σ p g)))) g.

(** The one name [NestedFormGroup] looks the source up under. *)
Definition source_name (sourceType : ModelType) (sourceFormId : option string) : string :=
  let f := match sourceFormId with
           | Some s => if truthy s then s else name sourceType
           | None => name sourceType
           end in
  if bool_decide (f = DEFAULT_GROUP) then name sourceType else f.

(** What one round of [NestedFormGroup] makes of a host group. *)
Definition nest (sourceType : ModelType) (sourceFormId : option string) (p : string)
           (σ : state) (g : FormGroup) : FormGroup :=
  match tree_ref σ (key sourceType) (source_name sourceType sourceFormId) with
  | Some s => group_addControl p (Nested s) g
  | None => g
  end.


(** ** The classes of the test suite *)

Definition LoginRequest : ModelType :=
  {| name := "LoginRequest";
     key := "class LoginRequest";
     instance := [("username", JStr EmptyString); ("password", JStr EmptyString)] |}.

Definition ProfileRequest : ModelType :=
  {| name := "ProfileRequest";
     key := "class ProfileRequest";
     instance := [("birthday", JStr "today")] |}.

Definition required : fn := Fn "Validators.required".
Definition minLength5Validator : fn := Fn "minLength5Validator".
Definition asyncValidator : fn := Fn "asyncValidator".

(** ** Programs of decorators *)

(** One application of a decorator of [index.ts]. *)
Inductive decorator : Type :=
| ClassTarget (formId : FormIdType) (target : ModelType)
| ClassValidators (validators : raw) (formId : FormIdType) (target : ModelType)
| ClassAsyncValidators (validators : raw) (formId : FormIdType) (target : ModelType)
| FieldTarget (validatorsOrOptions : ValidatorsOrOptions) (formId : FormIdType)
              (type : ModelType) (at_ : site)
| FieldAsyncValidators (validators : raw) (formId : FormIdType)
                       (type : ModelType) (at_ : site)
| FieldNested (sourceType : ModelType) (sourceFormId : option string)
              (targetFormId : FormIdType) (type : ModelType) (at_ : site).

Definition apply_decorator (d : decorator) : JS unit :=
  match d with
  | ClassTarget formId target => FormGroupTarget formId target
  | ClassValidators validators formId target =>
      FormGroupValidators validators formId target
  | ClassAsyncValidators validators formId target =>
      FormGroupAsyncValidators validators formId target
  | FieldTarget validatorsOrOptions formId type at_ =>
      FormControlTarget validatorsOrOptions formId type at_
  | FieldAsyncValidators validators formId type at_ =>
      FormControlAsyncValidators validators formId type at_
  | FieldNested sourceType sourceFormId targetFormId type at_ =>
      NestedFormGroup sourceType sourceFormId targetFormId type at_
  end.

(** The states of the registry while classes are being defined: the
    empty registry, and what a decorator leaves behind, whether it
    completed or threw. *)
Inductive reachable : state -> Prop :=
| reachable_initial : reachable initial
| reachable_apply d σ : reachable σ -> reachable (exec (apply_decorator d) σ).

Definition program (ds : list decorator) : JS unit := forEach ds apply_decorator.

(** The classes of [tests.ts], as the decorators run: members in order
    of declaration, the decorators of one member from the bottom up,
    and the decorators of the class last. *)
Definition login_fields : list decorator :=
  [ FieldTarget (Plain RNull) FUndefined LoginRequest (OnProperty "username");
    FieldTarget (Plain (RMany [])) (FString "secondary") LoginRequest
                (OnProperty "password");
    FieldTarget (Plain RNull) FUndefined LoginRequest (OnProperty "password") ].

Definition login_class : list decorator :=
  [ ClassValidators (ROne required) (FString "secondary") LoginRequest;
    ClassTarget (FString "secondary") LoginRequest;
    ClassTarget FUndefined LoginRequest ].

Definition login_validated_fields : list decorator :=
  [ FieldAsyncValidators (ROne asyncValidator) FUndefined LoginRequest
                         (OnProperty "username");
    FieldTarget (Plain (ROne minLength5Validator)) (FString "secondary") LoginRequest
                (OnProperty "username");
    FieldTarget (Plain (ROne required)) FUndefined LoginRequest
                (OnProperty "username");
    FieldTarget (Plain (RMany [])) (FString "secondary") LoginRequest
                (OnProperty "password");
    FieldTarget (Plain RNull) FUndefined LoginRequest (OnProperty "password") ].

Definition profile_fields : list decorator :=
  [ FieldTarget (Plain RNull) FUndefined ProfileRequest (OnProperty "birthday") ].

Definition login_nested : list decorator :=
  [ FieldNested ProfileRequest None FUndefined LoginRequest (OnProperty "profile") ].

(** The control of its own under field [p] of a tree, if there is one. *)
Definition control_at (σ : state) (type : ModelType) (k p : string)
  : option FormControl :=
  match field_at σ (key type) k p with
  | Some (Leaf c) => Some c
  | _ => None
  end.

(** [@FormGroupTarget() @FormGroupTarget("secondary") class LoginRequest]. *)
Definition two_variants : state :=
  exec (program [ ClassTarget (FString "secondary") LoginRequest;
                  ClassTarget FUndefined LoginRequest ]) initial.



(** [LoginRequest] with the tree of [ProfileRequest] under [profile]. *)
Definition profile_nested : state :=
  exec (program (profile_fields ++ login_nested)) initial.

(** ** What a decorator is applied to *)

Definition decorator_type (d : decorator) : ModelType :=
  match d with
  | ClassTarget _ target => target
  | ClassValidators _ _ target => target
  | ClassAsyncValidators _ _ target => target
  | FieldTarget _ _ type _ => type
  | FieldAsyncValidators _ _ type _ => type
  | FieldNested _ _ _ type _ => type
  end.

Definition decorator_formId (d : decorator) : FormIdType :=
  match d with
  | ClassTarget formId _ => formId
  | ClassValidators _ formId _ => formId
  | ClassAsyncValidators _ formId _ => formId
  | FieldTarget _ formId _ _ => formId
  | FieldAsyncValidators _ formId _ _ => formId
  | FieldNested _ _ targetFormId _ _ => targetFormId
  end.

(** A computation that leaves the registry and the number of cells of
    the heap as they are, however it completes. *)
Definition keeps_shape {A} (c : JS A) : Prop :=
  forall σ, METADATA (exec c σ) = METADATA σ /\
            length (heap (exec c σ)) = length (heap σ).

(** Every cell of the heap is filed somewhere in the registry. *)
Definition all_filed (σ : state) : Prop :=
  forall r, r < length (heap σ) -> exists K k, tree_ref σ K k = Some r.

(** ** Growing by asynchronous validators *)






(** [g'] is [g] with at most the field [p] added. *)
Definition group_grows (p : string) (g g' : FormGroup) : Prop :=
  g_rawValidators g' = g_rawValidators g /\
  g_rawAsyncValidators g' = g_rawAsyncValidators g /\
  (forall q, q <> p -> controls g' !! q = controls g !! q) /\
  (forall c, controls g !! p = Some c -> controls g' !! p = Some c).


(** * Properties *)

(** Names the callback of the loop a decorator runs. *)
Ltac name_each :=
  match goal with |- context [decorate _ _ ?e] => set (each := e) end.

(** ** The monad *)

Lemma bind_normal {A B} (c : JS A) (k : A -> JS B) σ a σ' :
  c σ = (Normal a, σ') -> bind c k σ = k a σ'.
Proof. intros H. unfold bind. by rewrite H. Qed.

Lemma bind_throw {A B} (c : JS A) (k : A -> JS B) σ e σ' :
  c σ = (Throw e, σ') -> bind c k σ = (Throw e, σ').
Proof. intros H. unfold bind. by rewrite H. Qed.

(** A loop whose rounds all complete normally, keep [P], establish [Q]
    for their element and do not undo it for the others. *)
Lemma forEach_ind {A} (f : A -> JS unit) (P : state -> Prop)
      (Q : A -> state -> Prop) (l : list A) :
  (forall a σ, a ∈ l -> P σ ->
     exists σ', f a σ = (Normal tt, σ') /\ P σ' /\ Q a σ' /\
                forall b, b ∈ l -> Q b σ -> Q b σ') ->
  forall σ, P σ ->
    exists σ', forEach l f σ = (Normal tt, σ') /\ P σ' /\
               forall a, a ∈ l -> Q a σ'.
Proof.
  intros Hstep.
  assert (Hgen : forall l', l' ⊆ l -> forall σ, P σ ->
            exists σ', forEach l' f σ = (Normal tt, σ') /\ P σ' /\
                       (forall a, a ∈ l' -> Q a σ') /\
                       (forall b, b ∈ l -> Q b σ -> Q b σ')).
  { induction l' as [|a l' IH]; intros Hsub σ HP.
    - exists σ. repeat split; auto. intros a Ha. by apply elem_of_nil in Ha.
    - assert (Ha : a ∈ l) by (apply Hsub; left).
      destruct (Hstep a σ Ha HP) as (σ1 & Hrun & HP1 & HQ1 & Hkeep1).
      destruct (IH (fun x Hx => Hsub x (list_elem_of_further _ _ _ Hx)) σ1 HP1)
        as (σ2 & Hrun2 & HP2 & HQ2 & Hkeep2).
      exists σ2. split; [|split; [|split]].
      + simpl. by rewrite (bind_normal _ _ _ _ _ Hrun).
      + done.
      + intros b Hb. apply elem_of_cons in Hb as [->|Hb]; auto.
      + intros b Hb HQ. auto. }
  intros σ HP. destruct (Hgen l (fun x Hx => Hx) σ HP) as (σ' & ? & ? & ? & _).
  eauto.
Qed.

(** ** [initializeMetadata] *)

Lemma extends_refl σ : extends σ σ.
Proof.
  split; auto.
  - exists 0. simpl. by rewrite app_nil_r.
  - intros K k r H1 H2. congruence.
Qed.

Lemma extends_trans σ1 σ2 σ3 : extends σ1 σ2 -> extends σ2 σ3 -> extends σ1 σ3.
Proof.
  intros [R1 [n1 H1] F1 G1] [R2 [n2 H2] F2 G2]. split; auto.
  - exists (n1 + n2). rewrite H2, H1, <- app_assoc. f_equal.
    by rewrite replicate_add.
  - intros K k r Hr Hnone.
    destruct (tree_ref σ2 K k) as [r2|] eqn:E2.
    + rewrite (R2 _ _ _ E2) in Hr. injection Hr as <-. eauto.
    + specialize (F2 _ _ _ Hr E2). rewrite H1, length_app in F2. lia.
Qed.

Lemma tree_ref_ensure K f σ K' k' :
  is_Some (METADATA σ !! K) ->
  tree_ref (ensure K f σ) K' k' =
    if decide (K = K' /\ f = k')
    then Some (default (length (heap σ)) (tree_ref σ K f))
    else tree_ref σ K' k'.
Proof.
  intros [m Hm]. unfold ensure, tree_ref. rewrite Hm. simpl.
  destruct (m !! f) as [r|] eqn:Hf.
  - case_decide as Hd; [|done].
    destruct Hd as [<- <-]. rewrite Hm. simpl. by rewrite Hf.
  - simpl. case_decide as Hd.
    + destruct Hd as [<- <-]. rewrite lookup_insert_eq. simpl.
      by rewrite lookup_insert_eq.
    + destruct (decide (K = K')) as [<-|HK].
      * rewrite lookup_insert_eq, Hm. simpl.
        rewrite lookup_insert_ne; [done|]. intros ->. by apply Hd.
      * by rewrite lookup_insert_ne.
Qed.

Lemma ensure_heap K f σ :
  heap (ensure K f σ) = heap σ \/
  heap (ensure K f σ) = (heap σ ++ [empty_FormGroup])%list.
Proof.
  unfold ensure. destruct (METADATA σ !! K) as [m|]; [|by left].
  destruct (m !! f); [by left|by right].
Qed.

Lemma ensure_registered K f σ K' :
  is_Some (METADATA (ensure K f σ) !! K') <-> is_Some (METADATA σ !! K').
Proof.
  unfold ensure. destruct (METADATA σ !! K) as [m|] eqn:Hm; [|done].
  destruct (m !! f); [done|]. simpl.
  destruct (decide (K = K')) as [<-|HK].
  - rewrite lookup_insert_eq, Hm. split; eauto.
  - by rewrite lookup_insert_ne.
Qed.

Lemma ensure_other_type K f σ K' :
  K' <> K -> METADATA (ensure K f σ) !! K' = METADATA σ !! K'.
Proof.
  intros HK. unfold ensure. destruct (METADATA σ !! K) as [m|]; [|done].
  destruct (m !! f); [done|]. simpl. by rewrite lookup_insert_ne.
Qed.

Lemma ensure_present K f σ :
  is_Some (tree_ref σ K f) -> ensure K f σ = σ.
Proof.
  intros [r Hr]. unfold tree_ref in Hr. unfold ensure.
  destruct (METADATA σ !! K) as [m|]; [|done]. simpl in Hr. by rewrite Hr.
Qed.

Lemma ensure_extends K f σ : extends σ (ensure K f σ).
Proof.
  destruct (METADATA σ !! K) as [m|] eqn:Hm.
  2:{ unfold ensure. rewrite Hm. apply extends_refl. }
  assert (Hreg : is_Some (METADATA σ !! K)) by eauto.
  split.
  - intros K' k' r Hr. rewrite tree_ref_ensure by done.
    case_decide as Hd; [|done]. destruct Hd as [<- <-]. by rewrite Hr.
  - destruct (ensure_heap K f σ) as [->| ->].
    + exists 0. simpl. by rewrite app_nil_r.
    + by exists 1.
  - intros K' k' r Hr Hnone. rewrite tree_ref_ensure in Hr by done.
    case_decide as Hd; [|congruence]. destruct Hd as [<- <-].
    rewrite Hnone in Hr. simpl in Hr. injection Hr as <-. lia.
  - intros K' HK'. by apply ensure_registered.
Qed.

Lemma ensure_wf K f σ : wf σ -> wf (ensure K f σ).
Proof.
  intros [Ha Hi Hc].
  destruct (METADATA σ !! K) as [m|] eqn:Hm.
  2:{ unfold ensure. rewrite Hm. by split. }
  destruct (tree_ref σ K f) as [r0|] eqn:Hr0.
  { rewrite ensure_present by eauto. by split. }
  assert (Hreg : is_Some (METADATA σ !! K)) by eauto.
  assert (Hheap : heap (ensure K f σ) = (heap σ ++ [empty_FormGroup])%list).
  { unfold ensure. rewrite Hm. unfold tree_ref in Hr0. rewrite Hm in Hr0.
    simpl in Hr0. by rewrite Hr0. }
  split.
  - intros K' k' r Hr. rewrite tree_ref_ensure in Hr by done.
    rewrite Hheap, length_app. simpl.
    case_decide as Hd.
    + rewrite Hr0 in Hr. simpl in Hr. injection Hr as <-. lia.
    + specialize (Ha _ _ _ Hr). lia.
  - intros K1 k1 K2 k2 r H1 H2.
    rewrite tree_ref_ensure in H1, H2 by done. rewrite Hr0 in H1, H2.
    simpl in H1, H2.
    destruct (decide (K = K1 /\ f = k1)) as [[<- <-]|N1];
      destruct (decide (K = K2 /\ f = k2)) as [[<- <-]|N2]; auto.
    + injection H1 as <-. specialize (Ha _ _ _ H2). lia.
    + injection H2 as <-. specialize (Ha _ _ _ H1). lia.
    + eauto.
  - intros r g p n Hg Hp. rewrite Hheap in Hg |- *. rewrite length_app. simpl.
    destruct (decide (r < length (heap σ))) as [Hlt|Hge].
    + rewrite lookup_app_l in Hg by done. specialize (Hc _ _ _ _ Hg Hp). lia.
    + rewrite lookup_app_r in Hg by lia.
      destruct (r - length (heap σ)) as [|i]; simpl in Hg; [|done].
      injection Hg as <-. simpl in Hp. by rewrite lookup_empty in Hp.
Qed.

Lemma ensureType_extends K σ : extends σ (ensureType_state K σ).
Proof.
  unfold ensureType_state. destruct (METADATA σ !! K) as [m|] eqn:Hm.
  { apply extends_refl. }
  assert (Href : forall K' k', tree_ref
            {| METADATA := <[K := ∅]> (METADATA σ); heap := heap σ |} K' k'
            = tree_ref σ K' k').
  { intros K' k'. unfold tree_ref. simpl.
    destruct (decide (K = K')) as [<-|HK].
    - rewrite lookup_insert_eq, Hm. simpl. by rewrite lookup_empty.
    - by rewrite lookup_insert_ne. }
  split.
  - intros K' k' r. by rewrite Href.
  - exists 0. simpl. by rewrite app_nil_r.
  - intros K' k' r. rewrite Href. congruence.
  - intros K' HK'. simpl. destruct (decide (K = K')) as [<-|HK].
    + rewrite lookup_insert_eq. eauto.
    + by rewrite lookup_insert_ne.
Qed.

Lemma tree_ref_ensureType K σ K' k' :
  tree_ref (ensureType_state K σ) K' k' = tree_ref σ K' k'.
Proof.
  unfold ensureType_state. destruct (METADATA σ !! K) as [m|] eqn:Hm; [done|].
  unfold tree_ref. simpl. destruct (decide (K = K')) as [<-|HK].
  - rewrite lookup_insert_eq, Hm. simpl. by rewrite lookup_empty.
  - by rewrite lookup_insert_ne.
Qed.

Lemma ensureType_registered K σ : is_Some (METADATA (ensureType_state K σ) !! K).
Proof.
  unfold ensureType_state. destruct (METADATA σ !! K) as [m|] eqn:Hm; [eauto|].
  simpl. rewrite lookup_insert_eq. eauto.
Qed.

Lemma ensureType_wf K σ : wf σ -> wf (ensureType_state K σ).
Proof.
  intros [Ha Hi Hc]. split.
  - intros K' k' r. rewrite tree_ref_ensureType.
    replace (heap (ensureType_state K σ)) with (heap σ); [eauto|].
    unfold ensureType_state. by destruct (METADATA σ !! K).
  - intros K1 k1 K2 k2 r. rewrite !tree_ref_ensureType. eauto.
  - replace (heap (ensureType_state K σ)) with (heap σ); [eauto|].
    unfold ensureType_state. by destruct (METADATA σ !! K).
Qed.

Section Fold.
Variable K : string.

Let step (s : state) (f : string) : state := ensure K f s.

Lemma fold_ensure_extends names σ : extends σ (foldl step σ names).
Proof.
  revert σ. induction names as [|f names IH]; intros σ; simpl.
  - apply extends_refl.
  - eapply extends_trans; [apply ensure_extends|apply IH].
Qed.

Lemma fold_ensure_wf names σ : wf σ -> wf (foldl step σ names).
Proof.
  revert σ. induction names as [|f names IH]; intros σ Hwf; simpl; [done|].
  apply IH. by apply ensure_wf.
Qed.

Lemma fold_ensure_registered names σ K' :
  is_Some (METADATA (foldl step σ names) !! K') <-> is_Some (METADATA σ !! K').
Proof.
  revert σ. induction names as [|f names IH]; intros σ; simpl; [done|].
  rewrite IH. apply ensure_registered.
Qed.

Lemma fold_ensure_other_type names σ K' :
  K' <> K -> METADATA (foldl step σ names) !! K' = METADATA σ !! K'.
Proof.
  intros HK. revert σ. induction names as [|f names IH]; intros σ; simpl; [done|].
  rewrite IH. by apply ensure_other_type.
Qed.

Lemma fold_ensure_targets names σ k :
  is_Some (METADATA σ !! K) -> k ∈ names ->
  is_Some (tree_ref (foldl step σ names) K k).
Proof.
  revert σ. induction names as [|f names IH]; intros σ Hreg Hin; simpl.
  - by apply elem_of_nil in Hin.
  - apply elem_of_cons in Hin as [->|Hin].
    + assert (is_Some (tree_ref (step σ f) K f)) as [r Hr].
      { unfold step. rewrite tree_ref_ensure by done.
        rewrite decide_True by done. eauto. }
      pose proof (fold_ensure_extends names (step σ f)) as [R _ _ _]. eauto.
    + apply IH; [|done]. by apply ensure_registered.
Qed.


Lemma fold_ensure_present names σ :
  (forall k, k ∈ names -> is_Some (tree_ref σ K k)) -> foldl step σ names = σ.
Proof.
  induction names as [|f names IH]; intros Hall; simpl; [done|].
  unfold step at 2. rewrite ensure_present by (apply Hall; left).
  apply IH. intros k Hk. apply Hall. by right.
Qed.

Lemma forEach_ensure (target : ModelType) names σ :
  key target = K -> is_Some (METADATA σ !! K) ->
  forEach names (fun f =>
    e <- readEntry target f ;;
    match e with
    | Some _ => ret tt
    | None => r <- new_FormGroup ;; writeEntry target f r
    end) σ = (Normal tt, foldl step σ names).
Proof.
  intros HK. revert σ. induction names as [|f names IH]; intros σ Hreg; [done|].
  cbn [forEach foldl].
  assert (Hone : (e <- readEntry target f ;;
                  match e with
                  | Some _ => ret tt
                  | None => r <- new_FormGroup ;; writeEntry target f r
                  end) σ = (Normal tt, step σ f)).
  { destruct Hreg as [m Hm]. unfold step, ensure, bind, readEntry.
    rewrite HK, Hm. destruct (m !! f); [done|].
    unfold new_FormGroup, writeEntry. cbn. by rewrite HK, Hm. }
  rewrite (bind_normal _ _ _ _ _ Hone). apply IH. by apply ensure_registered.
Qed.
End Fold.

Lemma initializeMetadata_run target formId σ :
  initializeMetadata target formId σ = (Normal tt, init_state target formId σ).
Proof.
  unfold initializeMetadata, init_state.
  assert (H : ensureType target σ = (Normal tt, ensureType_state (key target) σ)).
  { unfold ensureType, ensureType_state. by destruct (METADATA σ !! key target). }
  rewrite (bind_normal _ _ _ _ _ H).
  apply forEach_ensure; [done|apply ensureType_registered].
Qed.

Lemma init_extends target formId σ : extends σ (init_state target formId σ).
Proof.
  unfold init_state. eapply extends_trans;
    [apply ensureType_extends|apply fold_ensure_extends].
Qed.

Lemma init_wf target formId σ : wf σ -> wf (init_state target formId σ).
Proof. intros H. by apply fold_ensure_wf, ensureType_wf. Qed.

Lemma init_registered target formId σ : registered (init_state target formId σ) target.
Proof. apply fold_ensure_registered, ensureType_registered. Qed.

Lemma init_targets target formId σ k :
  k ∈ normalizeFormId target formId ->
  is_Some (tree_ref (init_state target formId σ) (key target) k).
Proof. apply fold_ensure_targets, ensureType_registered. Qed.


Lemma init_present target formId σ :
  registered σ target ->
  (forall k, k ∈ normalizeFormId target formId -> is_Some (tree_ref σ (key target) k)) ->
  init_state target formId σ = σ.
Proof.
  intros [m Hm] Hall. unfold init_state.
  assert (E : ensureType_state (key target) σ = σ).
  { unfold ensureType_state. by rewrite Hm. }
  rewrite E. by apply fold_ensure_present.
Qed.

Lemma init_heap_old target formId σ r g :
  heap σ !! r = Some g -> heap (init_state target formId σ) !! r = Some g.
Proof.
  intros H. destruct (init_extends target formId σ) as [_ [n Hn] _ _].
  rewrite Hn. apply lookup_app_l_Some, H.
Qed.


(** ** Reading groups back *)

Lemma mapM_readEntry target names σ :
  registered σ target ->
  mapM names (fun f => readEntry target f) σ
  = (Normal (tree_ref σ (key target) <$> names), σ).
Proof.
  intros [m Hm]. induction names as [|f names IH]; [done|].
  cbn [mapM fmap list_fmap].
  assert (H : readEntry target f σ = (Normal (tree_ref σ (key target) f), σ)).
  { unfold readEntry, tree_ref. by rewrite Hm. }
  rewrite (bind_normal _ _ _ _ _ H), (bind_normal _ _ _ _ _ IH). done.
Qed.

Lemma mapM_readEntry_unregistered target f names σ :
  METADATA σ !! key target = None ->
  mapM (f :: names) (fun f => readEntry target f) σ = (Throw TypeError, σ).
Proof.
  intros H. cbn [mapM]. apply bind_throw. unfold readEntry. by rewrite H.
Qed.

Lemma getFormGroups_run target formId σ :
  registered σ target ->
  getFormGroups target formId σ
  = (Normal (tree_ref σ (key target) <$> normalizeFormId target formId), σ).
Proof. apply mapM_readEntry. Qed.

(** The references a decorator loops over once the entries exist. *)
Lemma targets_resolved target formId σ :
  (forall k, k ∈ normalizeFormId target formId ->
             is_Some (tree_ref σ (key target) k)) ->
  exists refs,
    tree_ref σ (key target) <$> normalizeFormId target formId = Some <$> refs /\
    forall r, r ∈ refs <->
              exists k, k ∈ normalizeFormId target formId /\
                        tree_ref σ (key target) k = Some r.
Proof.
  generalize (normalizeFormId target formId) as names.
  induction names as [|f names IH]; intros Hall.
  - exists []. split; [done|]. intros r. split.
    + intros H. by apply elem_of_nil in H.
    + intros (k & H & _). by apply elem_of_nil in H.
  - destruct (Hall f) as [r0 Hr0]; [left|].
    destruct IH as (refs & Hmap & Hrefs).
    { intros k Hk. apply Hall. by right. }
    exists (r0 :: refs). split.
    + cbn. by rewrite Hr0, Hmap.
    + intros r. rewrite elem_of_cons, Hrefs. split.
      * intros [->|(k & Hk & Hr)]; [exists f; split; [left|done]|].
        exists k. split; [by right|done].
      * intros (k & Hk & Hr). apply elem_of_cons in Hk as [->|Hk].
        -- left. congruence.
        -- right. eauto.
Qed.

(** ** Loops that rewrite one cell per round *)

Lemma tree_ref_set_cell σ r g K k : tree_ref (set_cell σ r g) K k = tree_ref σ K k.
Proof. done. Qed.

Lemma length_set_cell σ r g : length (heap (set_cell σ r g)) = length (heap σ).
Proof. apply length_insert. Qed.

Lemma set_cell_wf σ r g :
  wf σ ->
  (forall p n, controls g !! p = Some (Nested n) -> n < length (heap σ)) ->
  wf (set_cell σ r g).
Proof.
  intros [Ha Hi Hc] Hg. split.
  - intros K k r'. rewrite tree_ref_set_cell, length_set_cell. eauto.
  - intros K1 k1 K2 k2 r'. rewrite !tree_ref_set_cell. eauto.
  - intros r' g' p n Hr' Hp. rewrite length_set_cell. simpl in Hr'.
    apply list_lookup_insert_Some in Hr' as [(-> & <- & _)|[_ Hr']]; eauto.
Qed.

Lemma forEach_cells (each : option ref -> JS unit)
      (F : state -> FormGroup -> FormGroup)
      (P : state -> Prop) (Q : ref -> state -> Prop) refs σ0 :
  (forall σ r g, wf σ -> METADATA σ = METADATA σ0 -> heap σ !! r = Some g ->
                 each (Some r) σ = (Normal tt, set_cell σ r (F σ g))) ->
  (forall σ r g p n, wf σ -> METADATA σ = METADATA σ0 -> heap σ !! r = Some g ->
                     controls (F σ g) !! p = Some (Nested n) ->
                     n < length (heap σ)) ->
  (forall σ r g, r ∈ refs -> wf σ -> METADATA σ = METADATA σ0 -> P σ ->
                 heap σ !! r = Some g ->
                 P (set_cell σ r (F σ g)) /\ Q r (set_cell σ r (F σ g)) /\
                 forall r', r' ∈ refs -> Q r' σ -> Q r' (set_cell σ r (F σ g))) ->
  wf σ0 -> P σ0 -> (forall r, r ∈ refs -> r < length (heap σ0)) ->
  exists σ', forEach (Some <$> refs) each σ0 = (Normal tt, σ') /\
             wf σ' /\ METADATA σ' = METADATA σ0 /\
             length (heap σ') = length (heap σ0) /\
             P σ' /\ forall r, r ∈ refs -> Q r σ'.
Proof.
  intros Hrun Hchild Hinv Hwf0 HP0 Halloc.
  destruct (forEach_ind each
    (fun σ => wf σ /\ METADATA σ = METADATA σ0 /\
              length (heap σ) = length (heap σ0) /\ P σ)
    (fun a σ => forall r, a = Some r -> Q r σ)
    (Some <$> refs)) with (σ := σ0) as (σ' & Hfor & (Hwf & HM & HL & HP) & HQ).
  - intros a σ Ha (Hwf & HM & HL & HP).
    apply list_elem_of_fmap in Ha as (r & -> & Hr).
    destruct (lookup_lt_is_Some_2 (heap σ) r) as [g Hg].
    { rewrite HL. by apply Halloc. }
    destruct (Hinv σ r g Hr Hwf HM HP Hg) as (HP' & HQ' & Hkeep).
    exists (set_cell σ r (F σ g)). split; [by apply Hrun|].
    split; [|split].
    + split; [|split; [done|split; [|done]]].
      * apply set_cell_wf; [done|]. intros p n. by apply (Hchild σ r g).
      * by rewrite length_set_cell.
    + intros r' [= <-]. done.
    + intros b Hb HQb r' ->.
      apply list_elem_of_fmap in Hb as (r'' & [= <-] & Hr'). by apply Hkeep, HQb.
  - done.
  - exists σ'. do 5 (split; [done|]).
    intros r Hr. apply (HQ (Some r)); [|done]. apply list_elem_of_fmap. eauto.
Qed.

(** ** Decorators as loops over the targeted groups *)

Lemma decorate_cells target formId each F
      (P : state -> Prop) (Q : ref -> state -> Prop) σ :
  let σ0 := init_state target formId σ in
  (forall s r g, wf s -> METADATA s = METADATA σ0 -> heap s !! r = Some g ->
                 each (Some r) s = (Normal tt, set_cell s r (F s g))) ->
  (forall s r g p n, wf s -> METADATA s = METADATA σ0 -> heap s !! r = Some g ->
                     controls (F s g) !! p = Some (Nested n) ->
                     n < length (heap s)) ->
  (forall s r g k, k ∈ normalizeFormId target formId ->
                 tree_ref σ0 (key target) k = Some r ->
                 wf s -> METADATA s = METADATA σ0 -> P s ->
                 heap s !! r = Some g ->
                 P (set_cell s r (F s g)) /\ Q r (set_cell s r (F s g)) /\
                 forall r', Q r' s -> Q r' (set_cell s r (F s g))) ->
  wf σ -> P σ0 ->
  exists σ', decorate target formId each σ = (Normal tt, σ') /\
             wf σ' /\ METADATA σ' = METADATA σ0 /\
             length (heap σ') = length (heap σ0) /\ P σ' /\
             forall k r, k ∈ normalizeFormId target formId ->
                         tree_ref σ' (key target) k = Some r -> Q r σ'.
Proof.
  intros σ0 Hrun Hchild Hinv Hwf HP0.
  assert (Hwf0 : wf σ0) by by apply init_wf.
  destruct (targets_resolved target formId σ0) as (refs & Hmap & Hrefs).
  { intros k Hk. by apply init_targets. }
  destruct (forEach_cells each F P Q refs σ0) as (σ' & Hfor & Hwf' & HM & HL & HP & HQ);
    try done.
  - intros s r g Hr Hwfs HMs HPs Hg. apply Hrefs in Hr as (k & Hk & Hr).
    destruct (Hinv s r g k Hk Hr Hwfs HMs HPs Hg) as (H1 & H2 & H3). auto.
  - intros r Hr. apply Hrefs in Hr as (k & Hk & Hr).
    by apply (wf_alloc _ Hwf0 _ _ _ Hr).
  - exists σ'. split; [|do 4 (split; [done|])].
    + unfold decorate.
      rewrite (bind_normal _ _ _ _ _ (initializeMetadata_run target formId σ)).
      fold σ0.
      rewrite (bind_normal _ _ _ _ _
                 (getFormGroups_run target formId σ0 (init_registered _ _ _))).
      by rewrite Hmap.
    + intros k r Hk Hr. apply HQ, Hrefs. exists k. split; [done|].
      unfold tree_ref in *. by rewrite <- HM.
Qed.


(** ** One round of each decorator *)

Lemma update_run r f σ g :
  heap σ !! r = Some g -> update r f σ = (Normal tt, set_cell σ r (f g)).
Proof. intros H. unfold update. by rewrite H. Qed.

Lemma deref_run r σ g : heap σ !! r = Some g -> deref r σ = (Normal g, σ).
Proof. intros H. unfold deref. by rewrite H. Qed.

Lemma get_run r p σ g :
  heap σ !! r = Some g -> get r (Some p) σ = (Normal (controls g !! p), σ).
Proof.
  intros H. unfold get. by rewrite (bind_normal _ _ _ _ _ (deref_run _ _ _ H)).
Qed.

Lemma asyncValidator_of_allocated σ ctrl :
  (forall n, ctrl = Nested n -> n < length (heap σ)) ->
  asyncValidator_of ctrl σ = (Normal (getter σ ctrl), σ).
Proof.
  intros Hlt. destruct ctrl as [c|n]; [done|]. simpl.
  destruct (lookup_lt_is_Some_2 (heap σ) n) as [gn Hn]; [by apply Hlt|].
  rewrite (bind_normal _ _ _ _ _ (deref_run _ _ _ Hn)).
  unfold ret. f_equal. f_equal.
  transitivity (Some gn ≫= fun g0 => coerceToValidator (g_rawAsyncValidators g0));
    [done|]. f_equal. symmetry. exact Hn.
Qed.


Lemma getter_set_cell s r g g' c :
  heap s !! r = Some g ->
  g_rawAsyncValidators g' = g_rawAsyncValidators g ->
  getter (set_cell s r g') c = getter s c.
Proof.
  intros Hg Hraw. destruct c as [c|n]; [done|]. simpl.
  destruct (decide (r = n)) as [<-|Hne].
  - rewrite list_lookup_insert_eq by (apply lookup_lt_is_Some; eauto).
    rewrite Hg. simpl. by rewrite Hraw.
  - by rewrite list_lookup_insert_ne.
Qed.

Lemma set_cell_twice σ r g1 g2 :
  set_cell (set_cell σ r g1) r g2 = set_cell σ r g2.
Proof. unfold set_cell. simpl. f_equal. apply list_insert_insert_eq. Qed.

Lemma FormGroupValidators_round validators σ r g :
  heap σ !! r = Some g ->
  (r' <- receiver (Some r) ;; update r' (group_addValidators validators)) σ
  = (Normal tt, set_cell σ r (group_addValidators validators g)).
Proof. intros H. by apply update_run. Qed.

Lemma FormGroupAsyncValidators_round validators σ r g :
  heap σ !! r = Some g ->
  (r' <- receiver (Some r) ;; update r' (group_addAsyncValidators validators)) σ
  = (Normal tt, set_cell σ r (group_addAsyncValidators validators g)).
Proof. intros H. by apply update_run. Qed.

Lemma FormControlTarget_round validatorsOrOptions type p σ r g :
  wf σ -> heap σ !! r = Some g ->
  (r' <- receiver (Some r) ;;
   ctrl <- get r' (Some p) ;;
   match ctrl with
   | None =>
       addControl r' p
         (Leaf (new_FormControl (member (instance type) p) validatorsOrOptions RNull))
   | Some ctrl =>
       removeControl r' p ;;
       a <- asyncValidator_of ctrl ;;
       addControl r' p
         (Leaf (new_FormControl (value_of ctrl) validatorsOrOptions (of_getter a)))
   end) σ
  = (Normal tt, set_cell σ r (retarget type p validatorsOrOptions σ g)).
Proof.
  intros Hwf Hg.
  assert (Hlt : r < length (heap σ)) by (apply lookup_lt_is_Some; eauto).
  unfold receiver. unfold bind at 1. unfold ret at 1.
  rewrite (bind_normal _ _ _ _ _ (get_run _ p _ _ Hg)).
  unfold retarget, slot_value, slot_async.
  destruct (controls g !! p) as [ctrl|] eqn:Hp; simpl.
  - unfold removeControl, addControl.
    rewrite (bind_normal _ _ _ _ _ (update_run _ _ _ _ Hg)).
    assert (Halloc : forall n, ctrl = Nested n ->
              n < length (heap (set_cell σ r (group_removeControl p g)))).
    { intros n ->. rewrite length_set_cell.
      by apply (wf_child _ Hwf _ _ _ _ Hg Hp). }
    rewrite (bind_normal _ _ _ _ _ (asyncValidator_of_allocated _ ctrl Halloc)).
    rewrite (getter_set_cell σ r g) by done.
    erewrite update_run.
    2:{ simpl. by apply list_lookup_insert_eq. }
    rewrite set_cell_twice. f_equal. f_equal.
    unfold group_addControl, group_removeControl, group_setControl. simpl.
    rewrite lookup_delete_eq. f_equal. apply insert_delete_eq.
  - unfold addControl. rewrite (update_run _ _ _ _ Hg). f_equal. f_equal.
    unfold group_addControl, group_setControl. by rewrite Hp.
Qed.

Lemma retarget_children type p vo σ g q n :
  controls (retarget type p vo σ g) !! q = Some (Nested n) ->
  controls g !! q = Some (Nested n).
Proof.
  unfold retarget, group_setControl. simpl. intros H.
  apply lookup_insert_Some in H as [[_ H]|[_ H]]; [done|done].
Qed.

Lemma normalize_source sourceType sourceFormId :
  normalizeFormId sourceType (of_sourceFormId sourceFormId)
  = [source_name sourceType sourceFormId].
Proof.
  unfold normalizeFormId, source_name.
  destruct sourceFormId as [s|]; simpl; [|done]. by destruct (truthy s).
Qed.

Lemma NestedFormGroup_round sourceType sourceFormId p σ r g :
  registered σ sourceType -> heap σ !! r = Some g ->
  (found <- getFormGroups sourceType (of_sourceFormId sourceFormId) ;;
   match mjoin (head found) with
   | Some nestedFormGroup =>
       r' <- receiver (Some r) ;;
       addControl r' p (Nested nestedFormGroup)
   | None => ret tt
   end) σ
  = (Normal tt, set_cell σ r (nest sourceType sourceFormId p σ g)).
Proof.
  intros Hreg Hg.
  rewrite (bind_normal _ _ _ _ _ (getFormGroups_run _ _ _ Hreg)).
  rewrite normalize_source. simpl. unfold nest.
  destruct (tree_ref σ (key sourceType) (source_name sourceType sourceFormId))
    as [s|]; simpl.
  - by apply update_run.
  - unfold ret, set_cell. f_equal. destruct σ as [M h]. simpl in *. f_equal.
    symmetry. by apply list_insert_id.
Qed.

Lemma NestedFormGroup_round_throws sourceType sourceFormId p σ (formGroup : option ref) :
  METADATA σ !! key sourceType = None ->
  (found <- getFormGroups sourceType (of_sourceFormId sourceFormId) ;;
   match mjoin (head found) with
   | Some nestedFormGroup =>
       r' <- receiver formGroup ;;
       addControl r' p (Nested nestedFormGroup)
   | None => ret tt
   end) σ
  = (Throw TypeError, σ).
Proof.
  intros H. apply bind_throw. unfold getFormGroups. rewrite normalize_source.
  by apply mapM_readEntry_unregistered.
Qed.

(** ** [FormControlTarget] *)

Lemma FormControlTarget_decorate validatorsOrOptions formId type p :
  FormControlTarget validatorsOrOptions formId type (OnProperty p)
  = decorate type formId (fun formGroup =>
      r <- receiver formGroup ;;
      ctrl <- get r (Some p) ;;
      match ctrl with
      | None =>
          addControl r p
            (Leaf (new_FormControl (member (instance type) p)
                                   validatorsOrOptions RNull))
      | Some ctrl =>
          removeControl r p ;;
          a <- asyncValidator_of ctrl ;;
          addControl r p
            (Leaf (new_FormControl (value_of ctrl) validatorsOrOptions (of_getter a)))
      end).
Proof. reflexivity. Qed.





Lemma wf_initial : wf initial.
Proof.
  split.
  - intros K k r H. unfold tree_ref in H. simpl in H. by rewrite lookup_empty in H.
  - intros K k K' k' r H. unfold tree_ref in H. simpl in H.
    by rewrite lookup_empty in H.
  - intros r g p n H. done.
Qed.

Lemma exec_run {A} (c : JS A) σ a σ' : c σ = (Normal a, σ') -> exec c σ = σ'.
Proof. intros H. unfold exec. by rewrite H. Qed.

Lemma FormGroupTarget_wf formId target σ :
  wf σ -> wf (exec (FormGroupTarget formId target) σ).
Proof.
  intros H. unfold FormGroupTarget.
  rewrite (exec_run _ _ _ _ (initializeMetadata_run target formId σ)).
  by apply init_wf.
Qed.


Lemma decorate_wf target formId each F σ :
  let σ0 := init_state target formId σ in
  (forall s r g, wf s -> METADATA s = METADATA σ0 -> heap s !! r = Some g ->
                 each (Some r) s = (Normal tt, set_cell s r (F s g))) ->
  (forall s r g p n, wf s -> METADATA s = METADATA σ0 -> heap s !! r = Some g ->
                     controls (F s g) !! p = Some (Nested n) ->
                     n < length (heap s)) ->
  wf σ ->
  exists σ', decorate target formId each σ = (Normal tt, σ') /\ wf σ' /\
             METADATA σ' = METADATA σ0 /\ length (heap σ') = length (heap σ0).
Proof.
  intros σ0 Hrun Hchild Hwf.
  destruct (decorate_cells target formId each F (fun _ => True) (fun _ _ => True) σ)
    as (σ' & Hdec & Hwf' & HM & HL & _); try done.
  exists σ'. auto.
Qed.

Lemma FormControlTarget_wf validatorsOrOptions formId type p σ :
  wf σ -> wf (exec (FormControlTarget validatorsOrOptions formId type (OnProperty p)) σ).
Proof.
  intros Hwf. rewrite FormControlTarget_decorate.
  name_each.
  destruct (decorate_wf type formId each (retarget type p validatorsOrOptions) σ)
    as (σ' & Hrun & Hwf' & _); try done.
  - intros s r g Hwfs _ Hg. by apply FormControlTarget_round.
  - intros s r g q n Hwfs _ Hg Hq. apply retarget_children in Hq.
    by apply (wf_child _ Hwfs _ _ _ _ Hg Hq).
  - by rewrite (exec_run _ _ _ _ Hrun).
Qed.

(** ** [FormGroupValidators] *)

Lemma FormGroupValidators_decorate validators formId target :
  FormGroupValidators validators formId target
  = decorate target formId (fun formGroup =>
      r <- receiver formGroup ;;
      update r (group_addValidators validators)).
Proof. reflexivity. Qed.





(** ** [NestedFormGroup] *)

Lemma NestedFormGroup_decorate sourceType sourceFormId targetFormId type p :
  NestedFormGroup sourceType sourceFormId targetFormId type (OnProperty p)
  = decorate type targetFormId (fun formGroup =>
      found <- getFormGroups sourceType (of_sourceFormId sourceFormId) ;;
      match mjoin (head found) with
      | Some nestedFormGroup =>
          r <- receiver formGroup ;;
          addControl r p (Nested nestedFormGroup)
      | None => ret tt
      end).
Proof. reflexivity. Qed.

Lemma init_other_type target formId σ K' :
  K' <> key target ->
  METADATA (init_state target formId σ) !! K' = METADATA σ !! K'.
Proof.
  intros HK. unfold init_state. rewrite fold_ensure_other_type by done.
  unfold ensureType_state. destruct (METADATA σ !! key target); [done|].
  simpl. by rewrite lookup_insert_ne.
Qed.

Lemma nest_children sourceType sourceFormId p s g q n :
  wf s -> (forall q' n', controls g !! q' = Some (Nested n') -> n' < length (heap s)) ->
  controls (nest sourceType sourceFormId p s g) !! q = Some (Nested n) ->
  n < length (heap s).
Proof.
  intros Hwf Hg. unfold nest.
  destruct (tree_ref s (key sourceType) (source_name sourceType sourceFormId))
    as [src|] eqn:Hsrc; [|by apply Hg].
  unfold group_addControl. destruct (controls g !! p) eqn:Hp; [by apply Hg|].
  simpl. intros H. apply lookup_insert_Some in H as [[_ [= <-]]|[_ H]]; [|by eapply Hg].
  by apply (wf_alloc _ Hwf _ _ _ Hsrc).
Qed.

(** The source has no entry in the registry: the first round throws,
    after the host variants have been created. *)
Lemma NestedFormGroup_throws sourceType sourceFormId targetFormId type at_ σ :
  METADATA (init_state type targetFormId σ) !! key sourceType = None ->
  normalizeFormId type targetFormId <> [] ->
  NestedFormGroup sourceType sourceFormId targetFormId type at_ σ
  = (Throw TypeError, init_state type targetFormId σ).
Proof.
  intros Hnone Hne. unfold NestedFormGroup.
  rewrite (bind_normal _ _ _ _ _ (initializeMetadata_run type targetFormId σ)).
  rewrite (bind_normal _ _ _ _ _
             (getFormGroups_run type targetFormId _ (init_registered _ _ _))).
  destruct (normalizeFormId type targetFormId) as [|k names]; [done|].
  cbn [fmap list_fmap forEach]. apply bind_throw.
  by apply NestedFormGroup_round_throws.
Qed.



(** ** Decorators keep the state well formed *)

Lemma decorate_ind target formId each (P : state -> Prop) σ :
  let σ0 := init_state target formId σ in
  (forall s r, P s -> wf s -> METADATA s = METADATA σ0 -> r < length (heap s) ->
     exists s', each (Some r) s = (Normal tt, s') /\
                P s' /\ wf s' /\ METADATA s' = METADATA σ0) ->
  wf σ -> P σ0 ->
  exists σ', decorate target formId each σ = (Normal tt, σ') /\
             wf σ' /\ METADATA σ' = METADATA σ0 /\ P σ'.
Proof.
  intros σ0 Hstep Hwf HP0.
  assert (Hwf0 : wf σ0) by by apply init_wf.
  destruct (targets_resolved target formId σ0) as (refs & Hmap & Hrefs).
  { intros k Hk. by apply init_targets. }
  destruct (forEach_ind each
    (fun s => wf s /\ METADATA s = METADATA σ0 /\ P s) (fun _ _ => True)
    (Some <$> refs)) with (σ := σ0) as (σ' & Hfor & (Hwf' & HM & HP) & _).
  - intros a s Ha (Hwfs & HMs & HPs).
    apply list_elem_of_fmap in Ha as (r & -> & Hr).
    apply Hrefs in Hr as (k & Hk & Hr).
    destruct (Hstep s r HPs Hwfs HMs) as (s' & Hrun & HP' & Hwf' & HM').
    { apply (wf_alloc _ Hwfs (key target) k). unfold tree_ref in *. by rewrite HMs. }
    exists s'. auto.
  - done.
  - exists σ'. split; [|done]. unfold decorate.
    rewrite (bind_normal _ _ _ _ _ (initializeMetadata_run target formId σ)).
    fold σ0.
    rewrite (bind_normal _ _ _ _ _
               (getFormGroups_run target formId σ0 (init_registered _ _ _))).
    by rewrite Hmap.
Qed.

Lemma FormGroupValidators_wf validators formId target σ :
  wf σ -> wf (exec (FormGroupValidators validators formId target) σ).
Proof.
  intros Hwf. rewrite FormGroupValidators_decorate.
  name_each.
  destruct (decorate_wf target formId each
              (fun _ g => group_addValidators validators g) σ)
    as (σ' & Hrun & Hwf' & _); try done.
  - intros s r g _ _ Hg. by apply FormGroupValidators_round.
  - intros s r g q n Hwfs _ Hg Hq. by apply (wf_child _ Hwfs _ _ _ _ Hg Hq).
  - by rewrite (exec_run _ _ _ _ Hrun).
Qed.

Lemma FormGroupAsyncValidators_wf validators formId target σ :
  wf σ -> wf (exec (FormGroupAsyncValidators validators formId target) σ).
Proof.
  intros Hwf.
  change (FormGroupAsyncValidators validators formId target)
    with (decorate target formId (fun formGroup =>
            r <- receiver formGroup ;;
            update r (group_addAsyncValidators validators))).
  name_each.
  destruct (decorate_wf target formId each
              (fun _ g => group_addAsyncValidators validators g) σ)
    as (σ' & Hrun & Hwf' & _); try done.
  - intros s r g _ _ Hg. by apply FormGroupAsyncValidators_round.
  - intros s r g q n Hwfs _ Hg Hq. by apply (wf_child _ Hwfs _ _ _ _ Hg Hq).
  - by rewrite (exec_run _ _ _ _ Hrun).
Qed.

Lemma FormControlAsyncValidators_wf validators formId type p σ :
  wf σ ->
  wf (exec (FormControlAsyncValidators validators formId type (OnProperty p)) σ).
Proof.
  intros Hwf.
  change (FormControlAsyncValidators validators formId type (OnProperty p))
    with (decorate type formId (fun formGroup =>
            r <- receiver formGroup ;;
            ctrl <- get r (Some p) ;;
            match ctrl with
            | None =>
                addControl r p
                  (Leaf (new_FormControl (member (instance type) p)
                                         (Plain RNull) validators))
            | Some (Leaf c) =>
                update r (group_setControl p
                            (Leaf (control_addAsyncValidators validators c)))
            | Some (Nested n) =>
                update n (group_addAsyncValidators validators)
            end)).
  name_each.
  destruct (decorate_ind type formId each (fun _ => True) σ)
    as (σ' & Hrun & Hwf' & _); try done.
  2:{ by rewrite (exec_run _ _ _ _ Hrun). }
  intros s r _ Hwfs HM Hlt.
  destruct (lookup_lt_is_Some_2 (heap s) r Hlt) as [g Hg].
  unfold each, receiver. unfold bind at 1. unfold ret at 1.
  rewrite (bind_normal _ _ _ _ _ (get_run _ p _ _ Hg)).
  destruct (controls g !! p) as [[c|n]|] eqn:Hp.
  - rewrite (update_run _ _ _ _ Hg). eexists. split; [done|]. split; [done|].
    split; [|done]. apply set_cell_wf; [done|]. intros q m. simpl. intros H.
    apply lookup_insert_Some in H as [[_ H]|[_ H]]; [done|].
    by apply (wf_child _ Hwfs _ _ _ _ Hg H).
  - destruct (lookup_lt_is_Some_2 (heap s) n) as [gn Hn].
    { by apply (wf_child _ Hwfs _ _ _ _ Hg Hp). }
    rewrite (update_run _ _ _ _ Hn). eexists. split; [done|]. split; [done|].
    split; [|done]. apply set_cell_wf; [done|]. intros q m. simpl.
    by apply (wf_child _ Hwfs _ _ _ _ Hn).
  - unfold addControl. rewrite (update_run _ _ _ _ Hg). eexists.
    split; [done|]. split; [done|]. split; [|done].
    apply set_cell_wf; [done|]. intros q m. unfold group_addControl. rewrite Hp.
    simpl. intros H. apply lookup_insert_Some in H as [[_ H]|[_ H]]; [done|].
    by apply (wf_child _ Hwfs _ _ _ _ Hg H).
Qed.

Lemma decorate_nil target formId each σ :
  normalizeFormId target formId = [] ->
  decorate target formId each σ
  = (Normal tt, ensureType_state (key target) σ).
Proof.
  intros Hnil. unfold decorate.
  rewrite (bind_normal _ _ _ _ _ (initializeMetadata_run target formId σ)).
  unfold getFormGroups, init_state. rewrite Hnil. done.
Qed.

Lemma NestedFormGroup_wf sourceType sourceFormId targetFormId type p σ :
  wf σ ->
  wf (exec (NestedFormGroup sourceType sourceFormId targetFormId type (OnProperty p)) σ).
Proof.
  intros Hwf. set (σ0 := init_state type targetFormId σ).
  destruct (METADATA σ0 !! key sourceType) as [m|] eqn:Hm.
  - rewrite NestedFormGroup_decorate.
    name_each.
    destruct (decorate_wf type targetFormId each (nest sourceType sourceFormId p) σ)
      as (σ' & Hrun & Hwf' & _); try done.
    + intros s r g Hwfs HM Hg. apply NestedFormGroup_round; [|done].
      unfold registered. rewrite HM. fold σ0. rewrite Hm. eauto.
    + intros s r g q n Hwfs HM Hg. apply nest_children; [done|].
      intros q' n'. apply (wf_child _ Hwfs r g q' n' Hg).
    + by rewrite (exec_run _ _ _ _ Hrun).
  - destruct (normalizeFormId type targetFormId) as [|k names] eqn:Hnames.
    + rewrite NestedFormGroup_decorate.
      rewrite (exec_run _ _ _ _ (decorate_nil _ _ _ _ Hnames)).
      by apply ensureType_wf.
    + unfold exec. rewrite NestedFormGroup_throws; [by apply init_wf|done|].
      by rewrite Hnames.
Qed.

(** ** Sites and the sentinel *)

(** A decorator on a constructor parameter acts as the decorator on the
    property the parameter resolves to. *)
Lemma FormControlTarget_site validatorsOrOptions formId type at_ p :
  propName_of type at_ = Some p ->
  FormControlTarget validatorsOrOptions formId type at_
  = FormControlTarget validatorsOrOptions formId type (OnProperty p).
Proof. intros H. unfold FormControlTarget. by rewrite H. Qed.

Lemma FormControlAsyncValidators_site validators formId type at_ p :
  propName_of type at_ = Some p ->
  FormControlAsyncValidators validators formId type at_
  = FormControlAsyncValidators validators formId type (OnProperty p).
Proof. intros H. unfold FormControlAsyncValidators. by rewrite H. Qed.

Lemma NestedFormGroup_site sourceType sourceFormId targetFormId type at_ p :
  propName_of type at_ = Some p ->
  NestedFormGroup sourceType sourceFormId targetFormId type at_
  = NestedFormGroup sourceType sourceFormId targetFormId type (OnProperty p).
Proof. intros H. unfold NestedFormGroup. by rewrite H. Qed.

(** In the form id of a decorator the sentinel stands for the default
    variant, alone or inside an array. *)
Lemma normalizeFormId_sentinel type :
  normalizeFormId type (FString DEFAULT_GROUP) = normalizeFormId type FUndefined /\
  normalizeFormId type (FArray [DEFAULT_GROUP]) = normalizeFormId type FUndefined.
Proof.
  unfold normalizeFormId.
  assert (truthy DEFAULT_GROUP = true) as -> by (vm_compute; reflexivity).
  cbn [fmap list_fmap]. rewrite bool_decide_eq_true_2 by done.
  by case_bool_decide.
Qed.

Lemma normalizeFormId_array type l :
  normalizeFormId type (FArray l)
  = (fun f => if bool_decide (f = DEFAULT_GROUP) then name type else f) <$> l.
Proof. done. Qed.

(** ** Every reachable state is well formed *)

Lemma group_addControl_children name c g q n :
  (forall m, c <> Nested m) ->
  controls (group_addControl name c g) !! q = Some (Nested n) ->
  controls g !! q = Some (Nested n).
Proof.
  intros Hc. unfold group_addControl. destruct (controls g !! name); [done|].
  simpl. intros H. apply lookup_insert_Some in H as [[_ H]|[_ H]]; [|done].
  by destruct (Hc n).
Qed.

Lemma get_undefined_run r σ g :
  heap σ !! r = Some g -> get r None σ = (Normal None, σ).
Proof.
  intros H. unfold get. by rewrite (bind_normal _ _ _ _ _ (deref_run _ _ _ H)).
Qed.

Lemma FormControlTarget_unresolved_wf validatorsOrOptions formId type at_ σ :
  propName_of type at_ = None -> wf σ ->
  wf (exec (FormControlTarget validatorsOrOptions formId type at_) σ).
Proof.
  intros Hnone Hwf. unfold FormControlTarget. rewrite Hnone.
  fold (decorate type formId (fun formGroup =>
    r <- receiver formGroup ;;
    ctrl <- get r None ;;
    match ctrl with
    | None =>
        addControl r (property_key None)
          (Leaf (new_FormControl (member (instance type) (property_key None))
                                 validatorsOrOptions RNull))
    | Some ctrl =>
        removeControl r (property_key None) ;;
        a <- asyncValidator_of ctrl ;;
        addControl r (property_key None)
          (Leaf (new_FormControl (value_of ctrl) validatorsOrOptions (of_getter a)))
    end)).
  name_each.
  destruct (decorate_wf type formId each
    (fun _ g => group_addControl (property_key None)
       (Leaf (new_FormControl (member (instance type) (property_key None))
                              validatorsOrOptions RNull)) g) σ)
    as (σ' & Hrun & Hwf' & _); try done.
  - intros s r g _ _ Hg. unfold each, receiver. unfold bind at 1. unfold ret at 1.
    rewrite (bind_normal _ _ _ _ _ (get_undefined_run _ _ _ Hg)).
    by apply update_run.
  - intros s r g q n Hwfs _ Hg Hq. apply group_addControl_children in Hq; [|done].
    by apply (wf_child _ Hwfs _ _ _ _ Hg Hq).
  - by rewrite (exec_run _ _ _ _ Hrun).
Qed.

Lemma FormControlAsyncValidators_unresolved_wf validators formId type at_ σ :
  propName_of type at_ = None -> wf σ ->
  wf (exec (FormControlAsyncValidators validators formId type at_) σ).
Proof.
  intros Hnone Hwf. unfold FormControlAsyncValidators. rewrite Hnone.
  fold (decorate type formId (fun formGroup =>
    r <- receiver formGroup ;;
    ctrl <- get r None ;;
    match ctrl with
    | None =>
        addControl r (property_key None)
          (Leaf (new_FormControl (member (instance type) (property_key None))
                                 (Plain RNull) validators))
    | Some (Leaf c) =>
        update r (group_setControl (property_key None)
                    (Leaf (control_addAsyncValidators validators c)))
    | Some (Nested n) =>
        update n (group_addAsyncValidators validators)
    end)).
  name_each.
  destruct (decorate_wf type formId each
    (fun _ g => group_addControl (property_key None)
       (Leaf (new_FormControl (member (instance type) (property_key None))
                              (Plain RNull) validators)) g) σ)
    as (σ' & Hrun & Hwf' & _); try done.
  - intros s r g _ _ Hg. unfold each, receiver. unfold bind at 1. unfold ret at 1.
    rewrite (bind_normal _ _ _ _ _ (get_undefined_run _ _ _ Hg)).
    by apply update_run.
  - intros s r g q n Hwfs _ Hg Hq. apply group_addControl_children in Hq; [|done].
    by apply (wf_child _ Hwfs _ _ _ _ Hg Hq).
  - by rewrite (exec_run _ _ _ _ Hrun).
Qed.

(** [NestedFormGroup] uses the name only as a property key. *)
Lemma NestedFormGroup_any_site sourceType sourceFormId targetFormId type at_ :
  NestedFormGroup sourceType sourceFormId targetFormId type at_
  = NestedFormGroup sourceType sourceFormId targetFormId type
      (OnProperty (property_key (propName_of type at_))).
Proof. reflexivity. Qed.

Lemma apply_decorator_wf d σ : wf σ -> wf (exec (apply_decorator d) σ).
Proof.
  intros Hwf. destruct d as [formId target|validators formId target
    |validators formId target|vo formId type at_|validators formId type at_
    |sourceType sourceFormId targetFormId type at_]; simpl.
  - by apply FormGroupTarget_wf.
  - by apply FormGroupValidators_wf.
  - by apply FormGroupAsyncValidators_wf.
  - destruct (propName_of type at_) as [p|] eqn:Hp.
    + rewrite (FormControlTarget_site _ _ _ _ _ Hp). by apply FormControlTarget_wf.
    + by apply FormControlTarget_unresolved_wf.
  - destruct (propName_of type at_) as [p|] eqn:Hp.
    + rewrite (FormControlAsyncValidators_site _ _ _ _ _ Hp).
      by apply FormControlAsyncValidators_wf.
    + by apply FormControlAsyncValidators_unresolved_wf.
  - rewrite NestedFormGroup_any_site. by apply NestedFormGroup_wf.
Qed.

Lemma reachable_wf σ : reachable σ -> wf σ.
Proof.
  induction 1 as [|d σ _ IH]; [apply wf_initial|by apply apply_decorator_wf].
Qed.

Lemma program_reachable ds σ : reachable σ -> reachable (exec (program ds) σ).
Proof.
  revert σ. induction ds as [|d ds IH]; intros σ Hσ; [done|].
  unfold program, exec. cbn [forEach]. unfold bind.
  pose proof (reachable_apply d σ Hσ) as Hd. unfold exec in Hd.
  destruct (apply_decorator d σ) as [[[]|e] σ1]; simpl in Hd |- *.
  - by apply IH.
  - done.
Qed.

Lemma program_wf ds : wf (exec (program ds) initial).
Proof. apply reachable_wf, program_reachable, reachable_initial. Qed.

(** * The test suite, replayed *)

Example test_controls_length :
  let σ := exec (program login_fields) initial in
  size <$> (controls <$> tree_at σ (key LoginRequest) "LoginRequest") = Some 2 /\
  size <$> (controls <$> tree_at σ (key LoginRequest) "secondary") = Some 1.
Proof. vm_compute. split; reflexivity. Qed.

Example test_group_validators :
  let σ := exec (program (login_fields ++ login_class)) initial in
  (fun g => hasValidator (g_rawValidators g) required)
    <$> tree_at σ (key LoginRequest) "LoginRequest" = Some false /\
  (fun g => hasValidator (g_rawValidators g) required)
    <$> tree_at σ (key LoginRequest) "secondary" = Some true.
Proof. vm_compute. split; reflexivity. Qed.

Example test_control_validators :
  let σ := exec (program (login_validated_fields ++ login_class)) initial in
  (fun c => hasValidator (rawValidators c) required)
    <$> control_at σ LoginRequest "LoginRequest" "username" = Some true /\
  (fun c => hasValidator (rawValidators c) required)
    <$> control_at σ LoginRequest "secondary" "username" = Some false /\
  (fun c => hasValidator (rawValidators c) minLength5Validator)
    <$> control_at σ LoginRequest "secondary" "username" = Some true.
Proof. vm_compute. repeat split. Qed.

Example test_control_async_validator :
  let σ := exec (program (login_validated_fields ++ login_class)) initial in
  (fun c => coerceToValidator (rawAsyncValidators c))
    <$> control_at σ LoginRequest "LoginRequest" "username"
  = Some (Some asyncValidator) /\
  (fun c => coerceToValidator (rawAsyncValidators c))
    <$> control_at σ LoginRequest "secondary" "username" = Some None.
Proof. vm_compute. split; reflexivity. Qed.

Example test_nested_group :
  let σ := exec (program (profile_fields ++ login_validated_fields ++ login_nested
                          ++ login_class)) initial in
  exists r, result (toFormGroup ProfileRequest None) σ = Normal (Some r) /\
            field_at σ (key LoginRequest) "LoginRequest" "profile" = Some (Nested r).
Proof. exists 0. vm_compute. split; reflexivity. Qed.

(** * The properties of the specification

    The theorems below speak of a well-formed state [σ]; by
    [reachable_wf] that is every state the registry can be in while and
    after decorators run. *)




Lemma wf_profile_nested : wf profile_nested.
Proof. apply program_wf. Qed.









(** C8.  [initializeMetadata] always completes normally; running it
    again on the state it produced changes nothing; whatever was filed
    stays filed on the same object, and the objects of the heap are not
    touched; and when the type and all the names asked for are already
    there, the state is left exactly as it was. *)
Theorem initializeMetadata_idempotent target formId σ :
  exists σ1,
    initializeMetadata target formId σ = (Normal tt, σ1) /\
    initializeMetadata target formId σ1 = (Normal tt, σ1) /\
    (forall K k r, tree_ref σ K k = Some r -> tree_ref σ1 K k = Some r) /\
    (forall r g, heap σ !! r = Some g -> heap σ1 !! r = Some g) /\
    (registered σ target ->
     (forall k, k ∈ normalizeFormId target formId ->
                is_Some (tree_ref σ (key target) k)) ->
     σ1 = σ).
Proof.
  exists (init_state target formId σ).
  split; [apply initializeMetadata_run|]. split; [|split; [|split]].
  - rewrite initializeMetadata_run. f_equal.
    apply init_present; [apply init_registered|].
    intros k Hk. by apply init_targets.
  - apply (ext_ref _ _ (init_extends target formId σ)).
  - intros r g. apply init_heap_old.
  - apply init_present.
Qed.

Lemma initializeMetadata_idempotent_witness :
  exists σ1,
    initializeMetadata LoginRequest (FArray ["secondary"; DEFAULT_GROUP]) two_variants
    = (Normal tt, σ1) /\
    initializeMetadata LoginRequest (FArray ["secondary"; DEFAULT_GROUP]) σ1
    = (Normal tt, σ1) /\
    σ1 = two_variants.
Proof.
  destruct (initializeMetadata_idempotent LoginRequest
              (FArray ["secondary"; DEFAULT_GROUP]) two_variants)
    as (σ1 & H1 & H2 & _ & _ & H5).
  exists σ1. split; [done|]. split; [done|]. apply H5.
  - vm_compute. eauto.
  - intros k Hk. vm_compute in Hk.
    apply elem_of_cons in Hk as [->|Hk]; [vm_compute; eauto|].
    apply list_elem_of_singleton in Hk as ->. vm_compute. eauto.
Defined.

(** C9, as the code has it.  With an empty array as form id every
    decorator completes normally in the same state: no tree is created
    and none is changed, every entry of the registry reads as before,
    and the state is the old one when the type was registered already;
    otherwise the type is now registered, with no variant.  With no
    form id at all the decorators target the default variant. *)
Theorem empty_array_targets_no_variant σ target sourceType sourceFormId
        validators validatorsOrOptions at_ :
  exists σ',
    FormGroupTarget (FArray []) target σ = (Normal tt, σ') /\
    FormGroupValidators validators (FArray []) target σ = (Normal tt, σ') /\
    FormGroupAsyncValidators validators (FArray []) target σ = (Normal tt, σ') /\
    FormControlTarget validatorsOrOptions (FArray []) target at_ σ = (Normal tt, σ') /\
    FormControlAsyncValidators validators (FArray []) target at_ σ = (Normal tt, σ') /\
    NestedFormGroup sourceType sourceFormId (FArray []) target at_ σ = (Normal tt, σ') /\
    heap σ' = heap σ /\
    (forall K k, tree_ref σ' K k = tree_ref σ K k) /\
    registered σ' target /\
    (registered σ target -> σ' = σ) /\
    normalizeFormId target (FArray []) = [] /\
    normalizeFormId target FUndefined = [name target].
Proof.
  exists (ensureType_state (key target) σ).
  assert (Hdec : forall each, decorate target (FArray []) each σ
                              = (Normal tt, ensureType_state (key target) σ)).
  { intros each. by apply decorate_nil. }
  split; [apply (initializeMetadata_run target (FArray []) σ)|].
  do 5 (split; [apply Hdec|]).
  split; [|split; [|split; [|split]]].
  - unfold ensureType_state. by destruct (METADATA σ !! key target).
  - intros K k. apply tree_ref_ensureType.
  - apply ensureType_registered.
  - intros [m Hm]. unfold ensureType_state. by rewrite Hm.
  - split; [done|]. unfold normalizeFormId. simpl. by case_bool_decide.
Qed.

Lemma empty_array_targets_no_variant_witness :
  FormGroupValidators (ROne required) (FArray []) LoginRequest two_variants
  = (Normal tt, two_variants).
Proof.
  destruct (empty_array_targets_no_variant two_variants LoginRequest ProfileRequest
              None (ROne required) (Plain RNull) (OnProperty "username"))
    as (σ' & _ & H2 & _ & _ & _ & _ & _ & _ & _ & H10 & _).
  rewrite H2. f_equal. apply H10. vm_compute. eauto.
Defined.

(** The registry does change: on a class that no decorator has seen, a
    decorator with an empty array changes the registry. *)
Lemma empty_array_registers_type :
  exec (FormGroupTarget (FArray []) LoginRequest) initial <> initial /\
  ~ registered initial LoginRequest /\
  registered (exec (FormGroupTarget (FArray []) LoginRequest) initial) LoginRequest.
Proof.
  split; [|split].
  - intros H. apply (f_equal (fun s => METADATA s !! key LoginRequest)) in H.
    vm_compute in H. discriminate.
  - intros [m Hm]. vm_compute in Hm. discriminate.
  - vm_compute. eauto.
Qed.




(** C2, at the failing input.  [LoginRequest] has its default variant.
    The decorators resolve [DEFAULT_GROUP] to the default tree, and so
    does an accessor called without a name; but [toFormGroup] and
    [toFormGroups] called with [DEFAULT_GROUP] look the sentinel itself
    up and find nothing. *)
Theorem accessors_do_not_resolve_DEFAULT_GROUP :
  let σ := exec (FormGroupTarget FUndefined LoginRequest) initial in
  result (getFormGroups LoginRequest (FString DEFAULT_GROUP)) σ = Normal [Some 0] /\
  result (getFormGroups LoginRequest (FArray [DEFAULT_GROUP])) σ = Normal [Some 0] /\
  result (toFormGroup LoginRequest None) σ = Normal (Some 0) /\
  result (toFormGroup LoginRequest (Some DEFAULT_GROUP)) σ = Normal None /\
  result (toFormGroups LoginRequest [DEFAULT_GROUP]) σ = Normal (RArray [None]).
Proof. vm_compute. repeat split. Qed.

(** C4, at the failing inputs.  The source class has no entry in the
    registry and is not the host class, and the form id targets at
    least one host variant: [NestedFormGroup] throws a [TypeError] in
    its first round. *)
Theorem NestedFormGroup_unregistered_source_throws
        σ sourceType sourceFormId targetFormId type at_ :
  METADATA σ !! key sourceType = None ->
  key sourceType <> key type ->
  normalizeFormId type targetFormId <> [] ->
  result (NestedFormGroup sourceType sourceFormId targetFormId type at_) σ
  = Throw TypeError.
Proof.
  intros Hnone Hkey Hne. unfold result.
  rewrite NestedFormGroup_throws; [done| |done].
  by rewrite init_other_type.
Qed.

Lemma NestedFormGroup_unregistered_source_throws_witness :
  result (NestedFormGroup ProfileRequest None FUndefined LoginRequest
                          (OnProperty "profile")) initial
  = Throw TypeError.
Proof.
  apply NestedFormGroup_unregistered_source_throws.
  - vm_compute. reflexivity.
  - vm_compute. discriminate.
  - vm_compute. discriminate.
Defined.

(** C5, at the failing input.  [LoginRequest] has two variants.
    [toFormGroups] without names hands back the object [METADATA[t]]
    itself, a map from names to groups; in no state is its answer an
    array of groups. *)
Theorem toFormGroups_without_names_is_not_an_array :
  result (toFormGroups LoginRequest []) two_variants
  = Normal (RObject {[ "LoginRequest" := 1; "secondary" := 0 ]}) /\
  forall σ t l, result (toFormGroups t []) σ <> Normal (RArray l).
Proof.
  split; [vm_compute; reflexivity|]. intros σ t l. unfold result. simpl.
  by destruct (METADATA σ !! key t).
Qed.

(** * Further properties of [index.ts] *)

(** ** Only [initializeMetadata] touches the registry *)

Lemma keeps_shape_ret {A} (a : A) : keeps_shape (ret a).
Proof. by intros σ. Qed.

Lemma keeps_shape_throw {A} e : keeps_shape (@throw A e).
Proof. by intros σ. Qed.

Lemma keeps_shape_bind {A B} (c : JS A) (k : A -> JS B) :
  keeps_shape c -> (forall a, keeps_shape (k a)) -> keeps_shape (bind c k).
Proof.
  intros Hc Hk σ. unfold exec, bind. specialize (Hc σ). unfold exec in Hc.
  destruct (c σ) as [[a|e] σ1]; simpl in *; [|done].
  destruct (Hk a σ1) as [H1 H2]. unfold exec in H1, H2.
  destruct Hc as [Hc1 Hc2]. split; congruence.
Qed.

Lemma keeps_shape_forEach {A} (l : list A) (f : A -> JS unit) :
  (forall a, keeps_shape (f a)) -> keeps_shape (forEach l f).
Proof.
  intros Hf. induction l as [|a l IH]; simpl.
  - apply keeps_shape_ret.
  - apply keeps_shape_bind; auto.
Qed.

Lemma keeps_shape_mapM {A B} (l : list A) (f : A -> JS B) :
  (forall a, keeps_shape (f a)) -> keeps_shape (mapM l f).
Proof.
  intros Hf. induction l as [|a l IH]; simpl.
  - apply keeps_shape_ret.
  - apply keeps_shape_bind; [done|]. intros b.
    apply keeps_shape_bind; [done|]. intros bs. apply keeps_shape_ret.
Qed.

Lemma keeps_shape_readEntry target f : keeps_shape (readEntry target f).
Proof. intros σ. unfold exec, readEntry. by destruct (METADATA σ !! key target). Qed.

Lemma keeps_shape_getFormGroups target formId :
  keeps_shape (getFormGroups target formId).
Proof. apply keeps_shape_mapM. intros f. apply keeps_shape_readEntry. Qed.

Lemma keeps_shape_deref r : keeps_shape (deref r).
Proof. intros σ. unfold exec, deref. by destruct (heap σ !! r). Qed.

Lemma keeps_shape_update r f : keeps_shape (update r f).
Proof.
  intros σ. unfold exec, update. destruct (heap σ !! r); [|done]. simpl.
  by rewrite length_insert.
Qed.

Lemma keeps_shape_receiver o : keeps_shape (receiver o).
Proof. destruct o; [apply keeps_shape_ret|apply keeps_shape_throw]. Qed.

Lemma keeps_shape_get r propName : keeps_shape (get r propName).
Proof.
  apply keeps_shape_bind; [apply keeps_shape_deref|]. intros g. apply keeps_shape_ret.
Qed.

Lemma keeps_shape_asyncValidator_of ctrl : keeps_shape (asyncValidator_of ctrl).
Proof.
  destruct ctrl as [c|n]; [apply keeps_shape_ret|].
  apply keeps_shape_bind; [apply keeps_shape_deref|]. intros g. apply keeps_shape_ret.
Qed.

(** Tactic for the loops of the decorators. *)
Ltac shape :=
  repeat first
    [ apply keeps_shape_ret | apply keeps_shape_throw
    | apply keeps_shape_readEntry | apply keeps_shape_getFormGroups
    | apply keeps_shape_deref | apply keeps_shape_update
    | apply keeps_shape_receiver | apply keeps_shape_get
    | apply keeps_shape_asyncValidator_of
    | apply keeps_shape_forEach; intros ?
    | apply keeps_shape_bind; [|intros ?]
    | match goal with |- keeps_shape (match ?x with _ => _ end) => destruct x end
    | progress unfold addControl, removeControl ].

Lemma decorator_rest_shape target formId (rest : JS unit) σ :
  keeps_shape rest ->
  let σ0 := init_state target formId σ in
  METADATA (exec (initializeMetadata target formId ;; rest) σ) = METADATA σ0 /\
  length (heap (exec (initializeMetadata target formId ;; rest) σ)) = length (heap σ0).
Proof.
  intros Hrest σ0. unfold exec.
  rewrite (bind_normal _ _ _ _ _ (initializeMetadata_run target formId σ)).
  apply Hrest.
Qed.

(** Whatever a decorator does and however it completes, the registry it
    leaves is the one [initializeMetadata] made for its type and form
    id, and the heap has the cells it had then. *)
Lemma decorator_shape d σ :
  let σ0 := init_state (decorator_type d) (decorator_formId d) σ in
  METADATA (exec (apply_decorator d) σ) = METADATA σ0 /\
  length (heap (exec (apply_decorator d) σ)) = length (heap σ0).
Proof.
  destruct d as [formId target|validators formId target
    |validators formId target|vo formId type at_|validators formId type at_
    |sourceType sourceFormId targetFormId type at_]; simpl.
  - unfold FormGroupTarget.
    by rewrite (exec_run _ _ _ _ (initializeMetadata_run target formId σ)).
  - apply decorator_rest_shape. shape.
  - apply decorator_rest_shape. shape.
  - apply decorator_rest_shape. shape.
  - apply decorator_rest_shape. shape.
  - apply decorator_rest_shape. shape.
Qed.

(** ** Form identifiers *)

Lemma normalizeFormId_ext_decorators type f1 f2 :
  normalizeFormId type f1 = normalizeFormId type f2 ->
  initializeMetadata type f1 = initializeMetadata type f2 /\
  getFormGroups type f1 = getFormGroups type f2.
Proof.
  intros H. unfold initializeMetadata, getFormGroups. by rewrite H.
Qed.

Lemma default_spellings type formId :
  formId ∈ [FString EmptyString; FString DEFAULT_GROUP;
            FArray [DEFAULT_GROUP]; FArray [name type]] ->
  normalizeFormId type formId = normalizeFormId type FUndefined.
Proof.
  intros H. unfold normalizeFormId.
  assert (Ht : truthy DEFAULT_GROUP = true) by (vm_compute; reflexivity).
  rewrite !elem_of_cons in H. destruct H as [->|[->|[->|[->|H]]]].
  - done.
  - rewrite Ht. cbn [fmap list_fmap]. rewrite bool_decide_eq_true_2 by done.
    by case_bool_decide.
  - cbn [fmap list_fmap]. rewrite bool_decide_eq_true_2 by done.
    by case_bool_decide.
  - done.
  - by apply elem_of_nil in H.
Qed.

(** X1.  The names [normalizeFormId] gives never hold the sentinel,
    unless the class itself is named like the sentinel; and they are
    stable: given back as an array they are returned as they are. *)
Theorem normalizeFormId_resolves_sentinel type formId :
  name type <> DEFAULT_GROUP ->
  (DEFAULT_GROUP ∉ normalizeFormId type formId) /\
  normalizeFormId type (FArray (normalizeFormId type formId))
  = normalizeFormId type formId.
Proof.
  intros Hname. split.
  - unfold normalizeFormId. intros H.
    apply list_elem_of_fmap in H as (f & Hf & _).
    case_bool_decide; congruence.
  - set (g := fun f => if bool_decide (f = DEFAULT_GROUP) then name type else f).
    assert (Hg : forall l : list string, g <$> (g <$> l) = g <$> l).
    { induction l as [|f l IH]; [done|]. cbn [fmap list_fmap]. f_equal; [|done].
      unfold g. repeat case_bool_decide; congruence. }
    unfold normalizeFormId. apply Hg.
Qed.

Lemma normalizeFormId_resolves_sentinel_witness :
  DEFAULT_GROUP ∉ normalizeFormId LoginRequest (FArray [DEFAULT_GROUP; "secondary"]).
Proof.
  apply (normalizeFormId_resolves_sentinel LoginRequest
           (FArray [DEFAULT_GROUP; "secondary"])).
  vm_compute. discriminate.
Defined.

(** X2.  In every decorator the empty string, the sentinel, the array
    holding the sentinel, and the array holding the class name are
    other spellings of the omitted form id: the decorator does the same
    as with no form id at all. *)
Theorem default_spellings_interchangeable type formId
        validators validatorsOrOptions sourceType sourceFormId at_ :
  formId ∈ [FString EmptyString; FString DEFAULT_GROUP;
            FArray [DEFAULT_GROUP]; FArray [name type]] ->
  FormGroupTarget formId type = FormGroupTarget FUndefined type /\
  FormGroupValidators validators formId type
  = FormGroupValidators validators FUndefined type /\
  FormGroupAsyncValidators validators formId type
  = FormGroupAsyncValidators validators FUndefined type /\
  FormControlTarget validatorsOrOptions formId type at_
  = FormControlTarget validatorsOrOptions FUndefined type at_ /\
  FormControlAsyncValidators validators formId type at_
  = FormControlAsyncValidators validators FUndefined type at_ /\
  NestedFormGroup sourceType sourceFormId formId type at_
  = NestedFormGroup sourceType sourceFormId FUndefined type at_.
Proof.
  intros H. apply default_spellings in H.
  destruct (normalizeFormId_ext_decorators type formId FUndefined H) as [Hi Hg].
  unfold FormGroupTarget, FormGroupValidators, FormGroupAsyncValidators,
    FormControlTarget, FormControlAsyncValidators, NestedFormGroup.
  rewrite Hi, Hg. done.
Qed.

Lemma default_spellings_interchangeable_witness :
  FormControlTarget (Plain (ROne required)) (FArray [DEFAULT_GROUP]) LoginRequest
                    (OnProperty "username") two_variants
  = FormControlTarget (Plain (ROne required)) FUndefined LoginRequest
                      (OnProperty "username") two_variants.
Proof.
  destruct (default_spellings_interchangeable LoginRequest (FArray [DEFAULT_GROUP])
              RNull (Plain (ROne required)) ProfileRequest None
              (OnProperty "username")) as (_ & _ & _ & H & _).
  - right. right. left.
  - by rewrite H.
Defined.



(** ** What decorators do to the registry *)




(** ** Decorate, then look up *)







(** ** The invariant of the registry *)

Lemma all_filed_shape σ σ' :
  METADATA σ' = METADATA σ -> length (heap σ') = length (heap σ) ->
  all_filed σ -> all_filed σ'.
Proof.
  intros HM HL H r Hr. rewrite HL in Hr. destruct (H r Hr) as (K & k & Hk).
  exists K, k. unfold tree_ref in *. by rewrite HM.
Qed.

Lemma ensure_all_filed K f σ : all_filed σ -> all_filed (ensure K f σ).
Proof.
  intros H r Hr. pose proof (ensure_extends K f σ) as Hext.
  destruct (decide (r < length (heap σ))) as [Hold|Hnew].
  - destruct (H r Hold) as (K' & k' & Hk). exists K', k'.
    by apply (ext_ref _ _ Hext).
  - unfold ensure in *. destruct (METADATA σ !! K) as [m|] eqn:Hm; [|done].
    destruct (m !! f) eqn:Hf; [done|]. simpl in Hr.
    rewrite length_app in Hr. simpl in Hr.
    exists K, f. unfold tree_ref. simpl. rewrite lookup_insert_eq. simpl.
    rewrite lookup_insert_eq. f_equal. lia.
Qed.

Lemma init_all_filed target formId σ :
  all_filed σ -> all_filed (init_state target formId σ).
Proof.
  intros H. unfold init_state.
  assert (H0 : all_filed (ensureType_state (key target) σ)).
  { intros r Hr.
    replace (heap (ensureType_state (key target) σ)) with (heap σ) in Hr
      by (unfold ensureType_state; by destruct (METADATA σ !! key target)).
    destruct (H r Hr) as (K & k & Hk). exists K, k.
    by rewrite tree_ref_ensureType. }
  revert H0. generalize (ensureType_state (key target) σ) as s.
  induction (normalizeFormId target formId) as [|f names IH]; intros s Hs; [done|].
  simpl. apply IH. by apply ensure_all_filed.
Qed.

Lemma reachable_all_filed σ : reachable σ -> all_filed σ.
Proof.
  induction 1 as [|d σ _ IH].
  - intros r Hr. simpl in Hr. lia.
  - destruct (decorator_shape d σ) as [HM HL].
    eapply all_filed_shape; [exact HM|exact HL|]. by apply init_all_filed.
Qed.

(** X4.  In every state the decorators can reach, the registry and the
    group objects correspond one to one: two different (class, variant)
    entries never share an object, every entry is filed on a live
    object, every object is filed under some entry, and a field that
    nests a group holds an object that is filed under some entry. *)
Theorem reachable_registry_invariant σ :
  reachable σ ->
  (forall K k K' k' r,
      tree_ref σ K k = Some r -> tree_ref σ K' k' = Some r -> K = K' /\ k = k') /\
  (forall K k r, tree_ref σ K k = Some r -> is_Some (heap σ !! r)) /\
  (forall r, is_Some (heap σ !! r) -> exists K k, tree_ref σ K k = Some r) /\
  (forall r g p n, heap σ !! r = Some g -> controls g !! p = Some (Nested n) ->
                   exists K k, tree_ref σ K k = Some n).
Proof.
  intros Hreach. pose proof (reachable_wf σ Hreach) as [Ha Hi Hc].
  pose proof (reachable_all_filed σ Hreach) as Hf.
  split; [exact Hi|]. split; [|split].
  - intros K k r Hr. apply lookup_lt_is_Some. eauto.
  - intros r Hr. apply Hf. by apply lookup_lt_is_Some.
  - intros r g p n Hg Hp. apply Hf. eauto.
Qed.

Lemma reachable_registry_invariant_witness :
  reachable profile_nested /\
  exists K k, tree_ref profile_nested K k = Some 0.
Proof.
  assert (H : reachable profile_nested)
    by apply program_reachable, reachable_initial.
  split; [exact H|].
  destruct (reachable_registry_invariant profile_nested H) as (_ & _ & _ & Hn).
  assert (Hg : exists g, heap profile_nested !! 1 = Some g /\
                         controls g !! "profile" = Some (Nested 0)).
  { eexists. split; vm_compute; reflexivity. }
  destruct Hg as (g & Hg & Hc). exact (Hn 1 g "profile" 0 Hg Hc).
Defined.



(** ** [FormControlTarget], field by field *)






(** ** Validators of a group *)





(** ** [FormGroupAsyncValidators] *)



(** ** [FormControlAsyncValidators] *)
















(** ** [NestedFormGroup] *)



Lemma group_grows_refl p g : group_grows p g g.
Proof. by repeat split. Qed.

Lemma group_grows_trans p g1 g2 g3 :
  group_grows p g1 g2 -> group_grows p g2 g3 -> group_grows p g1 g3.
Proof.
  intros (A1 & A2 & A3 & A4) (B1 & B2 & B3 & B4).
  split; [congruence|]. split; [congruence|]. split.
  - intros q Hq. rewrite B3 by done. by apply A3.
  - intros c Hc. by apply B4, A4.
Qed.

Lemma nest_grows sourceType sourceFormId p s g :
  group_grows p g (nest sourceType sourceFormId p s g).
Proof.
  unfold nest.
  destruct (tree_ref s (key sourceType) (source_name sourceType sourceFormId))
    as [src|]; [|apply group_grows_refl].
  unfold group_addControl. destruct (controls g !! p) as [c|] eqn:Hp.
  - apply group_grows_refl.
  - split; [done|]. split; [done|]. split; [|by rewrite Hp].
    intros q Hq. simpl. by rewrite lookup_insert_ne.
Qed.

(** X16.  [NestedFormGroup] never replaces anything.  However it
    completes, every group that existed keeps its validators and all
    its fields; at most the field the decorator names is new.  A field
    that already holds a control or another nested group is left as it
    is. *)
Theorem NestedFormGroup_keeps_existing
        sourceType sourceFormId targetFormId type at_ σ r g :
  wf σ -> heap σ !! r = Some g ->
  let σ' := exec (NestedFormGroup sourceType sourceFormId targetFormId type at_) σ in
  exists g', heap σ' !! r = Some g' /\
             group_grows (property_key (propName_of type at_)) g g'.
Proof.
  intros Hwf Hg. rewrite NestedFormGroup_any_site.
  set (p := property_key (propName_of type at_)).
  set (σ0 := init_state type targetFormId σ). simpl.
  assert (Hg0 : heap σ0 !! r = Some g) by by apply init_heap_old.
  destruct (METADATA σ0 !! key sourceType) as [m|] eqn:Hm.
  - rewrite NestedFormGroup_decorate. name_each.
    destruct (decorate_cells type targetFormId each (nest sourceType sourceFormId p)
      (fun s => exists g', heap s !! r = Some g' /\ group_grows p g g')
      (fun _ _ => True) σ)
      as (σ' & Hrun & _ & _ & _ & HP & _); try done.
    + intros s r1 g1 Hwfs HM Hg1. apply NestedFormGroup_round; [|done].
      unfold registered. rewrite HM. fold σ0. rewrite Hm. eauto.
    + intros s r1 g1 q n Hwfs HM Hg1. apply nest_children; [done|].
      intros q' n'. apply (wf_child _ Hwfs r1 g1 q' n' Hg1).
    + intros s r1 g1 k Hk Hr1 Hwfs HMs (g' & Hg' & Hgrow) Hg1. split; [|done].
      destruct (decide (r1 = r)) as [->|Hne].
      * assert (g1 = g') as -> by congruence.
        eexists. split.
        -- simpl. apply list_lookup_insert_eq. apply lookup_lt_is_Some. eauto.
        -- eapply group_grows_trans; [exact Hgrow|apply nest_grows].
      * exists g'. split; [|done]. simpl. by rewrite list_lookup_insert_ne.
    + exists g. split; [done|apply group_grows_refl].
    + rewrite (exec_run _ _ _ _ Hrun). exact HP.
  - exists g. split; [|apply group_grows_refl].
    destruct (normalizeFormId type targetFormId) as [|k names] eqn:Hnames.
    + rewrite NestedFormGroup_decorate.
      rewrite (exec_run _ _ _ _ (decorate_nil _ _ _ _ Hnames)).
      unfold ensureType_state. by destruct (METADATA σ !! key type).
    + unfold exec. rewrite NestedFormGroup_throws; [done|done|].
      by rewrite Hnames.
Qed.

Lemma NestedFormGroup_keeps_existing_witness :
  let σ' := exec (NestedFormGroup LoginRequest None FUndefined LoginRequest
                    (OnProperty "profile")) profile_nested in
  exists g', heap σ' !! 1 = Some g' /\ controls g' !! "profile" = Some (Nested 0).
Proof.
  intros σ'.
  assert (Hg : exists g, heap profile_nested !! 1 = Some g /\
                         controls g !! "profile" = Some (Nested 0)).
  { eexists. split; vm_compute; reflexivity. }
  destruct Hg as (g & Hg & Hc).
  destruct (NestedFormGroup_keeps_existing LoginRequest None FUndefined LoginRequest
              (OnProperty "profile") profile_nested 1 g wf_profile_nested Hg)
    as (g' & Hg' & _ & _ & _ & Hkeep).
  exists g'. split; [exact Hg'|]. by apply Hkeep.
Defined.

(** ** Which decorators fail *)









(** ** The accessors, name by name *)



(** X19.  [normalizeFormId] answers no name at all only for the empty
    array; an array gives as many names as it holds, and every other
    form id gives exactly one. *)
Theorem normalizeFormId_count type formId :
  (normalizeFormId type formId = [] <-> formId = FArray []) /\
  length (normalizeFormId type formId)
  = match formId with FArray l => length l | _ => 1 end.
Proof.
  split.
  - split.
    + destruct formId as [|s|l]; unfold normalizeFormId.
      * done.
      * by destruct (truthy s).
      * intros H. apply fmap_nil_inv in H. by subst.
    + by intros ->.
  - destruct formId as [|s|l]; unfold normalizeFormId.
    + done.
    + by destruct (truthy s).
    + by rewrite length_fmap.
Qed.

(** ** [FormControlTarget] with an options object *)


